(** * matscipy.checkpoint: region tracker, record codec and load/flush/save

    A shallow embedding of [matscipy/checkpoint.py].  The [Checkpoint]
    object is a record, its methods are computations in a small state and
    exception monad in which the state survives a raised exception, as the
    attributes of a Python object do. *)

From stdpp Require Import gmap strings list fin_maps pretty.
From Stdlib Require Import ZArith Lia.

Local Open Scope Z_scope.

(** ** Values, exceptions and the external store *)

(** The exceptions the module raises or lets through.  [OutOfFuel] is not
    a Python exception: it marks the exhaustion of the fuel given to the
    [while] loop of [load], which [load_loop_total] shows never happens. *)
Inductive exn :=
| NoCheckpoint
| AssertionError
| RuntimeError
| IndexError
| TypeError
| KeyError
| StoreError
| OutOfFuel.

Inductive result (A : Type) :=
| Ok (a : A)
| Raise (e : exn).
Arguments Ok {A} a.
Arguments Raise {A} e.

(** An [ase.Atoms] object: the structure that the store persists, and the
    calculator attached to the live object (which is not persisted). *)
Record Atoms := mkAtoms {
  atoms_structure : Z;
  atoms_calculator : option Z
}.

(** Python values passed to and returned from the checkpoint methods. *)
#[warnings="-register-all"]
Inductive value :=
| VNone
| VInt (z : Z)
| VStr (s : string)
| VAtoms (a : Atoms)
| VTuple (l : list value).

(** [isinstance(v, ase.Atoms)] *)
Definition isinstance_Atoms (v : value) : bool :=
  match v with VAtoms _ => true | _ => false end.

(** A row of the database: its id, the [checkpoint_id] key-value pair, the
    persisted structure and the [data] dictionary. *)
Record Row := mkRow {
  row_id : nat;
  row_checkpoint_id : Z;
  row_structure : Z;
  row_data : gmap string value
}.

(** The contents of the database file named by [self.db].  The store is an
    external collaborator ([ase.db]); it is represented at its boundary:
    point lookup by [checkpoint_id], deletion of a row by id, and writing
    of a new row under a fresh id. *)
Record Store := mkStore {
  rows : list Row;
  nextid : nat
}.

Definition empty_store : Store := mkStore [] 1.

Definition rows_at (k : Z) (s : Store) : list Row :=
  filter (λ r, row_checkpoint_id r = k) (rows s).

(** [db.get(checkpoint_id=k)]: the single matching row; [KeyError] when
    there is none, a failed assertion when several match. *)
Definition db_get (k : Z) (s : Store) : result Row :=
  match rows_at k s with
  | [] => Raise KeyError
  | [r] => Ok r
  | _ => Raise AssertionError
  end.

(** [del db[id]] *)
Definition db_delete (id : nat) (s : Store) : Store :=
  mkStore (filter (λ r, row_id r ≠ id) (rows s)) (nextid s).

(** [db.write(atoms, checkpoint_id=k, data=data)]: a new row is appended.
    An object that is not an [Atoms] cannot be persisted; that failure of
    the store is passed through. *)
Definition db_write (atoms : value) (k : Z) (data : gmap string value)
    (s : Store) : result Store :=
  match atoms with
  | VAtoms a =>
      Ok (mkStore (rows s ++ [mkRow (nextid s) k (atoms_structure a) data])
                  (S (nextid s)))
  | _ => Raise StoreError
  end.

(** [dbentry.toatoms()]: the persisted copy stands alone, without the
    calculator of the object that was written. *)
Definition toatoms (r : Row) : Atoms := mkAtoms (row_structure r) None.

(** [newatoms.set_calculator(calc)] *)
Definition set_calculator (a : Atoms) (calc : option Z) : Atoms :=
  mkAtoms (atoms_structure a) calc.

(** ** The Checkpoint object *)

Record Checkpoint := mkCheckpoint {
  checkpoint_id : list Z;
  in_checkpointed_region : bool;
  db : Store
}.

Definition _value_prefix : string := "_values_".
Definition _max_id : Z := 1000.

(** [Checkpoint(db)]: [__init__] on the database [s]. *)
Definition __init__ (s : Store) : Checkpoint := mkCheckpoint [0] false s.

(** ** State and exception monad *)

Definition M (A : Type) : Type := Checkpoint → Checkpoint * result A.

Definition ret {A} (a : A) : M A := λ self, (self, Ok a).
Definition raise {A} (e : exn) : M A := λ self, (self, Raise e).
Definition bind {A B} (m : M A) (f : A → M B) : M B :=
  λ self, match m self with
          | (self', Ok a) => f a self'
          | (self', Raise e) => (self', Raise e)
          end.
Definition lift {A} (r : result A) : M A := λ self, (self, r).
Definition get_self : M Checkpoint := λ self, (self, Ok self).
Definition set_checkpoint_id (p : list Z) : M unit :=
  λ self, (mkCheckpoint p (in_checkpointed_region self) (db self), Ok tt).
Definition set_in_checkpointed_region (b : bool) : M unit :=
  λ self, (mkCheckpoint (checkpoint_id self) b (db self), Ok tt).
Definition set_db (s : Store) : M unit :=
  λ self, (mkCheckpoint (checkpoint_id self) (in_checkpointed_region self) s, Ok tt).
Definition assert (b : bool) : M unit :=
  if b then ret tt else raise AssertionError.
(** [try: m except e: h]: only the exception [e] is caught. *)
Definition try_except {A} (m : M A) (e : exn → bool) (h : M A) : M A :=
  λ self, match m self with
          | (self', Raise x) => if e x then h self' else (self', Raise x)
          | r => r
          end.

#[global] Instance result_ret : MRet result := @Ok.
#[global] Instance result_bind : MBind result :=
  λ A B f r, match r with Ok a => f a | Raise e => Raise e end.
#[global] Instance M_ret : MRet M := @ret.
#[global] Instance M_bind : MBind M := λ A B f m, bind m f.

(** ** RegionTracker: the checkpoint id and its linear key *)

(** [l[-1]] *)
Definition index_last (l : list Z) : result Z :=
  match last l with
  | Some c => Ok c
  | None => Raise IndexError
  end.

(** [l[-1] = c] *)
Definition set_last (l : list Z) (c : Z) : list Z :=
  <[pred (length l) := c]> l.

(** [l[:-1]] *)
Definition but_last (l : list Z) : list Z := take (length l - 1)%nat l.

Definition _increase_checkpoint_id : M unit :=
  self ← get_self;
  (if in_checkpointed_region self then
     set_checkpoint_id (checkpoint_id self ++ [1])
   else
     c ← lift (index_last (checkpoint_id self));
     set_checkpoint_id (set_last (checkpoint_id self) (c + 1));;
     assert (bool_decide (c + 1 < _max_id)));;
  set_in_checkpointed_region true.

Definition _decrease_checkpoint_id : M unit :=
  self ← get_self;
  (if negb (in_checkpointed_region self) then
     set_checkpoint_id (but_last (checkpoint_id self));;
     assert (bool_decide (1 ≤ length (but_last (checkpoint_id self)))%nat)
   else ret tt);;
  set_in_checkpointed_region false;;
  self ← get_self;
  c ← lift (index_last (checkpoint_id self));
  assert (bool_decide (1 ≤ c)).

(** [enumerate(l)] *)
Definition enumerate {A} (l : list A) : list (nat * A) :=
  imap (λ i x, (i, x)) l.

(** [reduce(f, l)] without an initial value: a [TypeError] on the empty
    sequence. *)
Definition reduce {A} (f : A → A → A) (l : list A) : result A :=
  match l with
  | [] => Raise TypeError
  | x :: xs => Ok (fold_left f xs x)
  end.

(** The linear key of a checkpoint id. *)
Definition mangled (p : list Z) : result Z :=
  reduce (λ a b, a + b)
         (map (λ ic : nat * Z,
                 if bool_decide (ic.1 = 0%nat) then ic.2
                 else _max_id ^ Z.of_nat ic.1 * ic.2)
              (enumerate p)).

Definition _mangled_checkpoint_id : M Z :=
  self ← get_self; lift (mangled (checkpoint_id self)).

(** ** RecordCodec: the [data] dictionary of a record *)

Definition value_key (i : nat) : string := _value_prefix +:+ pretty i.
Definition atoms_index_key : string := "checkpoint_atoms_args_index".
Definition atoms_key : string := "atoms".

(** [dict(pairs)]: later pairs overwrite earlier ones. *)
Definition dict (l : list (string * value)) : gmap string value :=
  fold_left (λ d kv, <[kv.1 := kv.2]> d) l ∅.

(** [d[k]] *)
Definition getitem (d : gmap string value) (k : string) : result value :=
  match d !! k with
  | Some v => Ok v
  | None => Raise KeyError
  end.

(** [l[i]] for a list and [i ≥ 0] *)
Definition getitem_list (l : list value) (i : nat) : result value :=
  match l !! i with
  | Some v => Ok v
  | None => Raise IndexError
  end.

(** [l.index(True)] *)
Fixpoint index_True (l : list bool) : option nat :=
  match l with
  | [] => None
  | b :: l' => if b then Some 0%nat else S <$> index_True l'
  end.

(** [i == atomsi] for the loop counter [i] and a stored value. *)
Definition eq_int (i : nat) (v : value) : bool :=
  match v with
  | VInt z => bool_decide (Z.of_nat i = z)
  | _ => false
  end.

Definition is_KeyError (e : exn) : bool :=
  match e with KeyError => true | _ => false end.

(** ** CheckpointSession: load, flush and save *)

(** The [while] loop of [load], from counter [i] with [retvals] collected so
    far; [None] when the fuel runs out. *)
Fixpoint load_loop (fuel : nat) (dbentry : Row) (atoms : option Atoms)
    (atomsi : value) (i : nat) (retvals : list value)
    : option (result (list value)) :=
  match fuel with
  | O => None
  | S fuel' =>
      let data := row_data dbentry in
      if eq_int i atomsi || bool_decide (is_Some (data !! value_key i)) then
        if eq_int i atomsi then
          let newatoms := toatoms dbentry in
          let newatoms :=
            match atoms with
            | Some a => set_calculator newatoms (atoms_calculator a)
            | None => newatoms
            end in
          load_loop fuel' dbentry atoms atomsi (S i) (retvals ++ [VAtoms newatoms])
        else
          match getitem data (value_key i) with
          | Ok v => load_loop fuel' dbentry atoms atomsi (S i) (retvals ++ [v])
          | Raise e => Some (Raise e)
          end
      else Some (Ok retvals)
  end.

(** Fuel that the loop cannot use up: every turn but one consumes a
    distinct key of [data]. *)
Definition load_fuel (dbentry : Row) : nat := S (S (size (row_data dbentry))).

Definition load (atoms : option Atoms) : M value :=
  _increase_checkpoint_id;;
  k ← _mangled_checkpoint_id;
  self ← get_self;
  dbentry ← try_except (lift (db_get k (db self))) is_KeyError (raise NoCheckpoint);
  let data := row_data dbentry in
  atomsi ← lift (getitem data atoms_index_key);
  retvals ← lift (default (Raise OutOfFuel)
                    (load_loop (load_fuel dbentry) dbentry atoms atomsi 0 []));
  _decrease_checkpoint_id;;
  match retvals with
  | [v] => mret v
  | _ => mret (VTuple retvals)
  end.

(** [_flush], first part: the payload and the [data] dictionary built from
    the positional and named arguments. *)
Definition _flush_data (args : list value) (kwargs : gmap string value)
    : result (value * gmap string value) :=
  let data := dict (map (λ iv : nat * value, (value_key iv.1, iv.2))
                        (enumerate args)) in
  '(atomsi, atoms, data) ←
    match index_True (map isinstance_Atoms args) with
    | Some atomsi =>
        atoms ← getitem_list args atomsi;
        mret (Z.of_nat atomsi, atoms, delete (value_key atomsi) data)
    | None =>
        match kwargs !! atoms_key with
        | Some atoms => mret (-1, atoms, data)
        | None => Raise RuntimeError
        end
    end;
  let kwargs := delete atoms_key kwargs in
  let data := <[atoms_index_key := VInt atomsi]> data in
  let data := kwargs ∪ data in
  mret (atoms, data).

(** [_flush], second part: the record at the current key is deleted when
    there is one, then the new record is written. *)
Definition _flush_db (atoms : value) (data : gmap string value) : M unit :=
  try_except
    (k ← _mangled_checkpoint_id;
     self ← get_self;
     dbentry ← lift (db_get k (db self));
     set_db (db_delete (row_id dbentry) (db self)))
    is_KeyError (mret tt);;
  k ← _mangled_checkpoint_id;
  self ← get_self;
  s ← lift (db_write atoms k data (db self));
  set_db s.

Definition _flush (args : list value) (kwargs : gmap string value) : M unit :=
  '(atoms, data) ← lift (_flush_data args kwargs);
  _flush_db atoms data.

Definition flush (args : list value) (kwargs : gmap string value) : M unit :=
  set_in_checkpointed_region false;;
  _flush args kwargs.

Definition save (args : list value) (kwargs : gmap string value) : M unit :=
  _decrease_checkpoint_id;;
  _flush args kwargs.

(** ** Derived notions used to state the properties *)

(** The mixed-radix value [path[0] + Σ_{i≥1} path[i] · MAX_ID^i]. *)
Fixpoint radix_sum (p : list Z) : Z :=
  match p with
  | [] => 0
  | c :: q => c + _max_id * radix_sum q
  end.

(** A region path whose elements are positive and below [_max_id]. *)
Definition valid_path (p : list Z) : Prop :=
  Forall (λ c, 1 ≤ c < _max_id) p.

(** Entering a region with the flag cleared first, so that the last
    element is incremented in place. *)
Definition enter_sibling : M unit :=
  set_in_checkpointed_region false;;
  _increase_checkpoint_id.

Fixpoint enter_siblings (n : nat) : M unit :=
  match n with
  | O => mret tt
  | S n' => enter_siblings n';; enter_sibling
  end.

(** The invariant of a database written by this module: row ids are
    distinct and below [nextid], and no two rows carry the same
    [checkpoint_id]. *)
Definition store_wf (s : Store) : Prop :=
  NoDup (row_id <$> rows s)
  ∧ NoDup (row_checkpoint_id <$> rows s)
  ∧ Forall (λ r, (row_id r < nextid s)%nat) (rows s).

(** The database after the record at key [k] has been replaced. *)
Definition store_put (k : Z) (st : Z) (data : gmap string value) (s : Store)
    : Store :=
  mkStore (filter (λ r, row_checkpoint_id r ≠ k) (rows s)
           ++ [mkRow (nextid s) k st data])
          (S (nextid s)).

(** Named arguments that do not use the keys the record reserves for the
    positional values and the payload index. *)
Definition no_reserved (kwargs : gmap string value) : Prop :=
  kwargs !! atoms_index_key = None ∧ ∀ i, kwargs !! value_key i = None.

(** What [load] hands back for the values [args] written with payload [a]:
    the first [Atoms] among them replaced by the persisted copy, carrying
    the calculator of [atoms] when one is given. *)
Definition restored (args : list value) (a : Atoms) (atoms : option Atoms)
    : list value :=
  match index_True (map isinstance_Atoms args) with
  | Some i =>
      <[i := VAtoms (mkAtoms (atoms_structure a)
                             (atoms ≫= atoms_calculator))]> args
  | None => args
  end.

(** The stored payload index: the position of the first [Atoms], or -1. *)
Definition payload_index (args : list value) : Z :=
  match index_True (map isinstance_Atoms args) with
  | Some i => Z.of_nat i
  | None => -1
  end.

(** The return value of [load] for collected [retvals]. *)
Definition pack (retvals : list value) : value :=
  match retvals with
  | [v] => v
  | _ => VTuple retvals
  end.

Definition is_NoCheckpoint (e : exn) : bool :=
  match e with NoCheckpoint => true | _ => false end.

(** The idiom of the module documentation for one checkpointed block whose
    computed values are [args]:
    [try: CP.load()], and on [NoCheckpoint] a [CP.save] of these values. *)
Definition load_or_save (args : list value) (kwargs : gmap string value)
    : M unit :=
  try_except (load None;; mret tt) is_NoCheckpoint (save args kwargs).

(** The database after a row for key [k] has been added. *)
Definition store_add (k : Z) (st : Z) (data : gmap string value) (s : Store)
    : Store :=
  mkStore (rows s ++ [mkRow (nextid s) k st data]) (S (nextid s)).

(** ** CallWrapper *)

(** The loop of [decorated_func] that picks the first [Atoms] among the
    positional arguments, [None] when there is none. *)
Definition first_Atoms (args : list value) : option Atoms :=
  fold_left (λ atoms a,
               match atoms, a with
               | None, VAtoms x => Some x
               | _, _ => atoms
               end) args None.

(** The Python value of an [atoms] variable that may be [None]. *)
Definition optional_Atoms (atoms : option Atoms) : value :=
  match atoms with
  | Some a => VAtoms a
  | None => VNone
  end.

Definition func_name_key : string := "checkpoint_func_name".

(** [Checkpoint.__call__(func)(args, kwargs)], the decorated function.
    [func] may itself use the checkpoint object; [checkpoint_func_name] is
    [str(func)]. *)
Definition __call__ (func : list value → gmap string value → M value)
    (checkpoint_func_name : string)
    (args : list value) (kwargs : gmap string value) : M value :=
  let atoms := first_Atoms args in
  try_except (load atoms) is_NoCheckpoint
    (retvals ← func args kwargs;
     let named := <[atoms_key := optional_Atoms atoms]>
                    {[ func_name_key := VStr checkpoint_func_name ]} in
     match retvals with
     | VTuple vs => save vs named
     | _ => save [retvals] named
     end;;
     mret retvals).

(** ** Further derived notions *)

(** The invariant of the tracker between calls: a non-empty path whose
    elements are below [_max_id], positive except possibly the last one,
    which is positive too while a region is open. *)
Definition tracker_inv (self : Checkpoint) : Prop :=
  ∃ q c, checkpoint_id self = q ++ [c]
         ∧ valid_path q
         ∧ 0 ≤ c < _max_id
         ∧ (in_checkpointed_region self = true → 1 ≤ c).

(** An outcome that lets the caller go on: a result or [NoCheckpoint]. *)
Definition recoverable {A} (r : result A) : Prop :=
  match r with
  | Ok _ => True
  | Raise e => e = NoCheckpoint
  end.

(** The payload that the loop of [load] rebuilds from a row. *)
Definition newatoms_of (dbentry : Row) (atoms : option Atoms) : Atoms :=
  mkAtoms (row_structure dbentry) (atoms ≫= atoms_calculator).

(** The part of [load] between Enter and Exit: the lookup at the current
    key and the decoding of the record found. *)
Definition load_body (atoms : option Atoms) (self : Checkpoint)
    : result (list value) :=
  k ← mangled (checkpoint_id self);
  dbentry ← match db_get k (db self) with
            | Raise KeyError => Raise NoCheckpoint
            | r => r
            end;
  atomsi ← getitem (row_data dbentry) atoms_index_key;
  default (Raise OutOfFuel)
    (load_loop (load_fuel dbentry) dbentry atoms atomsi 0 []).

(** The positional values that [decorated_func] hands to [save] for the
    return value of the wrapped function. *)
Definition as_values (retvals : value) : list value :=
  match retvals with
  | VTuple vs => vs
  | _ => [retvals]
  end.

(** The named arguments that [decorated_func] hands to [save]. *)
Definition wrapper_named (atoms : option Atoms) (checkpoint_func_name : string)
    : gmap string value :=
  <[atoms_key := optional_Atoms atoms]>
    {[ func_name_key := VStr checkpoint_func_name ]}.

(** A session that runs checkpointed blocks in sequence, each the idiom
    [load_or_save] with the values and named arguments of the block. *)
Fixpoint save_blocks (bs : list (list value * gmap string value)) : M unit :=
  match bs with
  | [] => mret tt
  | b :: bs' => load_or_save b.1 b.2;; save_blocks bs'
  end.

(** A session that calls [load] [n] times in sequence and collects what
    the calls return. *)
Fixpoint load_blocks (n : nat) : M (list value) :=
  match n with
  | O => mret []
  | S n' => v ← load None; vs ← load_blocks n'; mret (v :: vs)
  end.

(** The payload and the [data] of the record of a block. *)
Definition block_record (b : list value * gmap string value)
    : option (Atoms * gmap string value) :=
  match _flush_data b.1 b.2 with
  | Ok (VAtoms a, data) => Some (a, data)
  | _ => None
  end.

(** A block that carries a payload and whose named arguments keep off the
    reserved keys. *)
Definition block_ok (b : list value * gmap string value) : Prop :=
  is_Some (block_record b) ∧ no_reserved b.2.

(** What [load] returns for the record of a block. *)
Definition block_restored (b : list value * gmap string value) : value :=
  match block_record b with
  | Some (a, _) => pack (restored b.1 a None)
  | None => VNone
  end.

(** The database after the records of the blocks have been added under the
    keys [j], [j + 1], ... *)
Fixpoint store_add_blocks (j : Z) (bs : list (list value * gmap string value))
    (s : Store) : Store :=
  match bs with
  | [] => s
  | b :: bs' =>
      store_add_blocks (j + 1) bs'
        (match block_record b with
         | Some (a, data) => store_add j (atoms_structure a) data s
         | None => s
         end)
  end.

(** The writes of an iterative loop: one [flush] per turn, with the values
    and named arguments of the turn. *)
Fixpoint flush_all (xs : list (list value * gmap string value)) : M unit :=
  match xs with
  | [] => mret tt
  | x :: xs' => flush x.1 x.2;; flush_all xs'
  end.

(** Values [args] and named arguments [kwargs] that carry exactly one
    payload [a]: either [a] is the only [Atoms] among the positional values
    and nothing is passed by name, or no positional value is an [Atoms] and
    [a] is passed under the reserved name, alone. *)
Definition one_payload (args : list value) (kwargs : gmap string value)
    (a : Atoms) : Prop :=
  (kwargs = ∅
   ∧ ∃ i, args !! i = Some (VAtoms a)
          ∧ ∀ j v, j ≠ i → args !! j = Some v → isinstance_Atoms v = false)
  ∨ (kwargs = {[ atoms_key := VAtoms a ]}
     ∧ Forall (λ v, isinstance_Atoms v = false) args).

(** * Properties *)

(** ** The linear key *)

Lemma fold_left_add_shift (l : list Z) (x : Z) :
  fold_left (λ a b, a + b) l x = x + fold_left (λ a b, a + b) l 0.
Proof.
  revert x. induction l as [|y l IH]; intros x; simpl; [lia|].
  rewrite (IH (x + y)), (IH (0 + y)). lia.
Qed.

Lemma weighted_tail (q : list Z) (n : nat) :
  fold_left (λ a b, a + b)
    (map (λ ic : nat * Z,
            if bool_decide (ic.1 = 0%nat) then ic.2
            else _max_id ^ Z.of_nat ic.1 * ic.2)
         (imap (λ i x, (S n + i, x)%nat) q)) 0
  = _max_id ^ Z.of_nat (S n) * radix_sum q.
Proof.
  revert n. induction q as [|c q IH]; intros n.
  - cbn [imap map fold_left radix_sum]. ring.
  - cbn [imap map fold_left radix_sum].
    rewrite fold_left_add_shift.
    rewrite (imap_ext _ (λ i x, (S (S n) + i, x)%nat) q)
      by (intros; simpl; f_equal; lia).
    rewrite IH. cbn [fst snd].
    rewrite bool_decide_eq_false_2 by lia.
    replace (S n + 0)%nat with (S n) by lia.
    replace (Z.of_nat (S (S n))) with (Z.of_nat (S n) + 1) by lia.
    rewrite Z.pow_add_r by lia. lia.
Qed.

(** The key computed by the code is the mixed-radix value of the path. *)
Lemma mangled_radix_sum (c : Z) (q : list Z) :
  mangled (c :: q) = Ok (radix_sum (c :: q)).
Proof.
  unfold mangled, enumerate. cbn [imap map reduce fst snd].
  rewrite bool_decide_eq_true_2 by done. f_equal.
  rewrite fold_left_add_shift.
  rewrite (imap_ext _ (λ i x, (1 + i, x)%nat) q) by done.
  rewrite (weighted_tail q 0). cbn [radix_sum]. f_equal.
Qed.

Lemma radix_sum_nonneg (p : list Z) : valid_path p → 0 ≤ radix_sum p.
Proof.
  induction 1 as [|c q Hc _ IH]; simpl; unfold _max_id in *; lia.
Qed.

Lemma radix_sum_inj (p1 p2 : list Z) :
  valid_path p1 → valid_path p2 → radix_sum p1 = radix_sum p2 → p1 = p2.
Proof.
  intros H1. revert p2.
  induction H1 as [|c q Hc Hq IH]; intros p2 H2 Heq.
  - destruct H2 as [|d r Hd Hr]; [done|].
    apply radix_sum_nonneg in Hr. simpl in Heq. unfold _max_id in *. lia.
  - destruct H2 as [|d r Hd Hr].
    + apply radix_sum_nonneg in Hq. simpl in Heq. unfold _max_id in *. lia.
    + simpl in Heq. unfold _max_id in *.
      assert (c = d) by lia. subst d.
      f_equal. apply IH; [done|lia].
Qed.

(** C2: distinct region paths with elements in [1, MAX_ID) have distinct
    linear keys, whatever their lengths. *)
Theorem mangled_checkpoint_id_injective (p1 p2 : list Z) :
  valid_path p1 → valid_path p2 → p1 ≠ p2 → mangled p1 ≠ mangled p2.
Proof.
  intros H1 H2 Hne Heq. apply Hne.
  destruct p1 as [|c1 q1], p2 as [|c2 q2]; try done.
  rewrite !mangled_radix_sum in Heq.
  apply radix_sum_inj; [done..|]. congruence.
Qed.

Lemma mangled_checkpoint_id_injective_witness :
  mangled [1; 1] ≠ mangled [1] ∧ mangled [2; 999] ≠ mangled [999; 2].
Proof.
  split; apply mangled_checkpoint_id_injective;
    first [ by repeat constructor | discriminate ].
Defined.
(** ** The region tracker *)

Ltac run :=
  unfold _increase_checkpoint_id, _decrease_checkpoint_id,
    _mangled_checkpoint_id, enter_sibling,
    mbind, mret, M_bind, M_ret, bind, ret, raise, lift, assert, get_self,
    set_checkpoint_id, set_in_checkpointed_region, set_db, try_except;
  cbn [checkpoint_id in_checkpointed_region db negb fst snd].

Lemma index_last_snoc (q : list Z) (c : Z) : index_last (q ++ [c]) = Ok c.
Proof. unfold index_last. by rewrite last_snoc. Qed.

Lemma set_last_snoc (q : list Z) (c d : Z) : set_last (q ++ [c]) d = q ++ [d].
Proof.
  unfold set_last. rewrite length_app. cbn [length].
  replace (pred (length q + 1)) with (length q + 0)%nat by lia.
  by rewrite insert_app_r.
Qed.

Lemma but_last_snoc (q : list Z) (c : Z) : but_last (q ++ [c]) = q.
Proof.
  unfold but_last. rewrite length_app. cbn [length].
  replace (length q + 1 - 1)%nat with (length q) by lia.
  by rewrite take_app_length.
Qed.

Lemma increase_nested (p : list Z) (s : Store) :
  _increase_checkpoint_id (mkCheckpoint p true s)
  = (mkCheckpoint (p ++ [1]) true s, Ok tt).
Proof. reflexivity. Qed.

Lemma increase_sibling (q : list Z) (c : Z) (s : Store) :
  c + 1 < _max_id →
  _increase_checkpoint_id (mkCheckpoint (q ++ [c]) false s)
  = (mkCheckpoint (q ++ [c + 1]) true s, Ok tt).
Proof.
  intros Hc. run. rewrite index_last_snoc, set_last_snoc.
  by rewrite bool_decide_eq_true_2.
Qed.

Lemma increase_overflow (q : list Z) (c : Z) (s : Store) :
  ¬ c + 1 < _max_id →
  _increase_checkpoint_id (mkCheckpoint (q ++ [c]) false s)
  = (mkCheckpoint (q ++ [c + 1]) false s, Raise AssertionError).
Proof.
  intros Hc. run. rewrite index_last_snoc, set_last_snoc.
  by rewrite bool_decide_eq_false_2.
Qed.

Lemma decrease_open (q : list Z) (c : Z) (s : Store) :
  1 ≤ c →
  _decrease_checkpoint_id (mkCheckpoint (q ++ [c]) true s)
  = (mkCheckpoint (q ++ [c]) false s, Ok tt).
Proof.
  intros Hc. run. rewrite index_last_snoc.
  by rewrite bool_decide_eq_true_2.
Qed.

Lemma decrease_collapse (q : list Z) (c d : Z) (s : Store) :
  1 ≤ c →
  _decrease_checkpoint_id (mkCheckpoint ((q ++ [c]) ++ [d]) false s)
  = (mkCheckpoint (q ++ [c]) false s, Ok tt).
Proof.
  intros Hc. run. rewrite but_last_snoc.
  rewrite bool_decide_eq_true_2 by (rewrite length_app; cbn; lia).
  run. rewrite index_last_snoc. by rewrite bool_decide_eq_true_2.
Qed.

Lemma enter_siblings_S (n : nat) (self : Checkpoint) :
  enter_siblings (S n) self
  = match enter_siblings n self with
    | (self', Ok _) => enter_sibling self'
    | (self', Raise e) => (self', Raise e)
    end.
Proof. reflexivity. Qed.

Lemma enter_sibling_eq (p : list Z) (b : bool) (s : Store) :
  enter_sibling (mkCheckpoint p b s)
  = _increase_checkpoint_id (mkCheckpoint p false s).
Proof. reflexivity. Qed.

Lemma enter_siblings_ok (pre : list Z) (b : bool) (s : Store) (n : nat) :
  (n < 1000)%nat →
  enter_siblings n (mkCheckpoint (pre ++ [0]) b s)
  = (mkCheckpoint (pre ++ [Z.of_nat n]) (if n is O then b else true) s, Ok tt).
Proof.
  induction n as [|n IH]; intros Hn; [done|].
  rewrite enter_siblings_S, IH by lia.
  rewrite enter_sibling_eq, increase_sibling by (unfold _max_id; lia).
  replace (Z.of_nat n + 1) with (Z.of_nat (S n)) by lia. done.
Qed.

(** C7: at a fixed depth, with the flag cleared before each call, the
    first 999 calls of Enter succeed and leave the call count in the last
    element; the 1000th call fails on the assertion. *)
Theorem sibling_counter_overflow (pre : list Z) (b : bool) (s : Store) (n : nat) :
  (n < Z.to_nat _max_id)%nat →
  enter_siblings n (mkCheckpoint (pre ++ [0]) b s)
  = (mkCheckpoint (pre ++ [Z.of_nat n]) (if n is O then b else true) s, Ok tt)
  ∧ (enter_siblings (Z.to_nat _max_id) (mkCheckpoint (pre ++ [0]) b s)).2
    = Raise AssertionError.
Proof.
  intros Hn. split; [by apply enter_siblings_ok|].
  change (Z.to_nat _max_id) with (S 999).
  rewrite enter_siblings_S, enter_siblings_ok by lia.
  rewrite enter_sibling_eq, increase_overflow; [done|].
  unfold _max_id. lia.
Qed.

Lemma sibling_counter_overflow_witness :
  enter_siblings 999 (__init__ empty_store)
  = (mkCheckpoint [999] true empty_store, Ok tt)
  ∧ (enter_siblings 1000 (__init__ empty_store)).2 = Raise AssertionError.
Proof.
  apply (sibling_counter_overflow [] false empty_store 999).
  vm_compute. lia.
Defined.

(** ** The store *)

Lemma filter_Forall_id {A} (P : A → Prop) `{!∀ x, Decision (P x)} (l : list A) :
  Forall P l → filter P l = l.
Proof.
  induction 1 as [|x l Hx _ IH]; [done|].
  by rewrite filter_cons_True, IH.
Qed.

Lemma filter_Forall_nil {A} (P : A → Prop) `{!∀ x, Decision (P x)} (l : list A) :
  Forall (λ x, ¬ P x) l → filter P l = [].
Proof.
  induction 1 as [|x l Hx _ IH]; [done|].
  by rewrite filter_cons_False.
Qed.

Lemma rows_key_fresh (l : list Row) (k : Z) :
  k ∉ row_checkpoint_id <$> l → Forall (λ r, row_checkpoint_id r ≠ k) l.
Proof.
  intros Hk. apply Forall_forall. intros r Hr Heq. apply Hk.
  rewrite <- Heq. by apply list_elem_of_fmap_2.
Qed.

Lemma rows_id_fresh (l : list Row) (i : nat) :
  i ∉ row_id <$> l → Forall (λ r, row_id r ≠ i) l.
Proof.
  intros Hi. apply Forall_forall. intros r Hr Heq. apply Hi.
  rewrite <- Heq. by apply list_elem_of_fmap_2.
Qed.

Lemma rows_at_cases (k : Z) (s : Store) :
  NoDup (row_checkpoint_id <$> rows s) →
  rows_at k s = [] ∨ ∃ r, rows_at k s = [r] ∧ r ∈ rows s ∧ row_checkpoint_id r = k.
Proof.
  unfold rows_at. destruct s as [l n]. cbn [rows].
  induction l as [|x l IH]; intros Hnd; [by left|].
  rewrite fmap_cons in Hnd. apply NoDup_cons in Hnd as [Hx Hnd].
  destruct (decide (row_checkpoint_id x = k)) as [Hk|Hk].
  - right. exists x. rewrite filter_cons_True by done.
    rewrite filter_Forall_nil; [repeat split; [constructor|done]|].
    apply rows_key_fresh. by rewrite <- Hk.
  - rewrite filter_cons_False by done.
    destruct (IH Hnd) as [->|(r & -> & Hr & Hrk)]; [by left|].
    right. exists r. repeat split; [by constructor|done].
Qed.

(** Deleting the row found at a key by its id removes exactly the rows of
    that key. *)
Lemma delete_found_row (l : list Row) (r : Row) :
  NoDup (row_id <$> l) → NoDup (row_checkpoint_id <$> l) → r ∈ l →
  filter (λ x, row_id x ≠ row_id r) l
  = filter (λ x, row_checkpoint_id x ≠ row_checkpoint_id r) l.
Proof.
  induction l as [|x l IH]; intros Hid Hkey Hr; [done|].
  rewrite fmap_cons in Hid. rewrite fmap_cons in Hkey.
  apply NoDup_cons in Hid as [Hxid Hid].
  apply NoDup_cons in Hkey as [Hxkey Hkey].
  apply elem_of_cons in Hr as [->|Hr].
  - rewrite !filter_cons_False by (intros H; by apply H).
    rewrite (filter_Forall_id (λ y, row_id y ≠ row_id x)) by by apply rows_id_fresh.
    by rewrite (filter_Forall_id (λ y, row_checkpoint_id y ≠ row_checkpoint_id x))
      by by apply rows_key_fresh.
  - assert (row_id x ≠ row_id r).
    { intros Heq. apply Hxid. rewrite Heq. by apply list_elem_of_fmap_2. }
    assert (row_checkpoint_id x ≠ row_checkpoint_id r).
    { intros Heq. apply Hxkey. rewrite Heq. by apply list_elem_of_fmap_2. }
    rewrite !filter_cons_True by done. f_equal. by apply IH.
Qed.

Lemma rows_at_put_same (k st : Z) (d : gmap string value) (s : Store) :
  rows_at k (store_put k st d s) = [mkRow (nextid s) k st d].
Proof.
  unfold rows_at, store_put. cbn [rows].
  rewrite filter_app, filter_cons_True, filter_nil by done.
  rewrite filter_Forall_nil; [done|].
  apply Forall_forall. intros r Hr. by apply list_elem_of_filter in Hr as [? _].
Qed.

Lemma rows_at_put_other (k k' st : Z) (d : gmap string value) (s : Store) :
  k' ≠ k → rows_at k' (store_put k st d s) = rows_at k' s.
Proof.
  intros Hne. unfold rows_at, store_put. cbn [rows].
  rewrite filter_app, filter_cons_False, filter_nil by (cbn; congruence).
  rewrite app_nil_r, list_filter_filter.
  apply list_filter_iff. intros r. split; [by intros [? _]|].
  intros Hr. split; [done|congruence].
Qed.

Lemma db_get_put_same (k st : Z) (d : gmap string value) (s : Store) :
  db_get k (store_put k st d s) = Ok (mkRow (nextid s) k st d).
Proof. unfold db_get. by rewrite rows_at_put_same. Qed.

Lemma db_get_put_other (k k' st : Z) (d : gmap string value) (s : Store) :
  k' ≠ k → db_get k' (store_put k st d s) = db_get k' s.
Proof. intros Hne. unfold db_get. by rewrite rows_at_put_other. Qed.

Lemma store_put_wf (k st : Z) (d : gmap string value) (s : Store) :
  store_wf s → store_wf (store_put k st d s).
Proof.
  intros (Hid & Hkey & Hlt). unfold store_wf, store_put. cbn [rows nextid].
  rewrite !fmap_app. cbn [fmap list_fmap row_id row_checkpoint_id].
  split_and!.
  - apply NoDup_app. split_and!.
    + apply NoDup_fmap_2_strong; [|by apply NoDup_filter, (NoDup_fmap_1 row_id)].
      intros x y Hx Hy Heq.
      apply list_elem_of_filter in Hx as [_ Hx].
      apply list_elem_of_filter in Hy as [_ Hy].
      apply list_elem_of_lookup in Hx as [i Hi].
      apply list_elem_of_lookup in Hy as [j Hj].
      assert (i = j) as ->; [|congruence].
      eapply NoDup_lookup; [exact Hid| |];
        rewrite list_lookup_fmap; [by rewrite Hi|by rewrite Hj, Heq].
    + intros i Hi Hin. apply list_elem_of_singleton in Hin as ->.
      apply list_elem_of_fmap in Hi as (r & Hr & Hin).
      apply list_elem_of_filter in Hin as [_ Hin].
      rewrite Forall_forall in Hlt. specialize (Hlt r Hin). lia.
    + apply NoDup_singleton.
  - apply NoDup_app. split_and!.
    + apply NoDup_fmap_2_strong; [|by apply NoDup_filter, (NoDup_fmap_1 row_id)].
      intros x y Hx Hy Heq.
      apply list_elem_of_filter in Hx as [_ Hx].
      apply list_elem_of_filter in Hy as [_ Hy].
      apply list_elem_of_lookup in Hx as [i Hi].
      apply list_elem_of_lookup in Hy as [j Hj].
      assert (i = j) as ->; [|congruence].
      eapply NoDup_lookup; [exact Hkey| |];
        rewrite list_lookup_fmap; [by rewrite Hi|by rewrite Hj, Heq].
    + intros k0 Hk0 Hin. apply list_elem_of_singleton in Hin as ->.
      apply list_elem_of_fmap in Hk0 as (r & Hr & Hin).
      by apply list_elem_of_filter in Hin as [Hin _].
    + apply NoDup_singleton.
  - apply Forall_app. split.
    + apply Forall_forall. intros r Hr.
      apply list_elem_of_filter in Hr as [_ Hr].
      rewrite Forall_forall in Hlt. specialize (Hlt r Hr). lia.
    + repeat constructor.
Qed.

Lemma empty_store_wf : store_wf empty_store.
Proof. repeat split; constructor. Qed.

Lemma rows_at_nil_filter (k : Z) (s : Store) :
  rows_at k s = [] → filter (λ r, row_checkpoint_id r ≠ k) (rows s) = rows s.
Proof.
  intros Hnil. apply filter_Forall_id, Forall_forall. intros r Hr Hk.
  by apply (filter_nil_not_elem_of _ _ r Hnil).
Qed.

(** On a well-formed store the delete-then-write of [_flush] replaces the
    record at the current key. *)
Lemma flush_db_spec (self : Checkpoint) (k : Z) (a : Atoms)
    (data : gmap string value) :
  store_wf (db self) → mangled (checkpoint_id self) = Ok k →
  _flush_db (VAtoms a) data self
  = (mkCheckpoint (checkpoint_id self) (in_checkpointed_region self)
       (store_put k (atoms_structure a) data (db self)), Ok tt).
Proof.
  intros (Hid & Hkey & _) Hk. unfold _flush_db. run. rewrite Hk.
  unfold db_get.
  destruct (rows_at_cases k (db self) Hkey) as [Hnil|(r & Hr & Hin & Hrk)].
  - rewrite Hnil. cbn [is_KeyError]. run. rewrite Hk. unfold db_write, store_put.
    by rewrite rows_at_nil_filter.
  - rewrite Hr. run. rewrite Hk. unfold db_write, db_delete, store_put.
    cbn [rows nextid]. rewrite (delete_found_row _ r), Hrk by done. done.
Qed.

(** [_flush_db] never touches the tracker, and when it fails it has
    written no row. *)
Lemma flush_db_frame (atoms : value) (data : gmap string value)
    (self : Checkpoint) :
  checkpoint_id (_flush_db atoms data self).1 = checkpoint_id self
  ∧ in_checkpointed_region (_flush_db atoms data self).1
    = in_checkpointed_region self
  ∧ (∀ e, (_flush_db atoms data self).2 = Raise e →
          ∀ r, r ∈ rows (db (_flush_db atoms data self).1) → r ∈ rows (db self)).
Proof.
  unfold _flush_db. run.
  destruct (mangled (checkpoint_id self)) as [k|e0] eqn:Hm.
  2:{ destruct e0; cbn [is_KeyError]; run; rewrite ?Hm; run; done. }
  destruct (db_get k (db self)) as [r0|e0] eqn:Hget.
  - run. rewrite Hm. run.
    destruct atoms; cbn; split_and!; try done.
    all: intros e _ r Hr; by apply list_elem_of_filter in Hr as [_ Hr].
  - destruct e0; cbn [is_KeyError]; run; rewrite ?Hm; run; try done.
    by destruct atoms.
Qed.

(** ** The record codec *)

Lemma value_key_inj (i j : nat) : value_key i = value_key j → i = j.
Proof.
  unfold value_key. intros Heq.
  apply (inj (String.app _value_prefix)) in Heq.
  by apply (inj pretty) in Heq.
Qed.

Lemma value_key_ne_index (i : nat) : value_key i ≠ atoms_index_key.
Proof. unfold value_key, atoms_index_key. cbn. discriminate. Qed.

Lemma value_key_ne_atoms (i : nat) : value_key i ≠ atoms_key.
Proof. unfold value_key, atoms_key. cbn. discriminate. Qed.

Lemma dict_snoc (l : list (string * value)) (k : string) (v : value) :
  dict (l ++ [(k, v)]) = <[k := v]> (dict l).
Proof. unfold dict. by rewrite fold_left_app. Qed.

Lemma enumerate_snoc {A} (l : list A) (x : A) :
  enumerate (l ++ [x]) = enumerate l ++ [(length l, x)].
Proof.
  unfold enumerate. rewrite imap_app. cbn [imap]. do 3 f_equal. lia.
Qed.

(** The dictionary built from the positional values holds value [i] under
    the key of [i]. *)
Lemma dict_enumerate_lookup (args : list value) (i : nat) :
  dict (map (λ iv : nat * value, (value_key iv.1, iv.2)) (enumerate args))
    !! value_key i = args !! i.
Proof.
  induction args as [|v args IH] using rev_ind; [done|].
  rewrite enumerate_snoc, map_app. cbn [map fst snd]. rewrite dict_snoc.
  destruct (decide (i = length args)) as [->|Hne].
  - rewrite lookup_insert_eq. by rewrite list_lookup_middle.
  - rewrite lookup_insert_ne by (intros H; by apply value_key_inj in H).
    rewrite IH. destruct (decide (i < length args)%nat).
    + by rewrite lookup_app_l.
    + rewrite !lookup_ge_None_2; [done|rewrite length_app; cbn; lia|lia].
Qed.

Lemma dict_enumerate_index (args : list value) :
  dict (map (λ iv : nat * value, (value_key iv.1, iv.2)) (enumerate args))
    !! atoms_index_key = None.
Proof.
  induction args as [|v args IH] using rev_ind; [done|].
  rewrite enumerate_snoc, map_app. cbn [map fst snd]. rewrite dict_snoc.
  rewrite lookup_insert_ne; [done|apply value_key_ne_index].
Qed.

Lemma index_True_Some (args : list value) (i : nat) :
  index_True (map isinstance_Atoms args) = Some i →
  ∃ a, args !! i = Some (VAtoms a).
Proof.
  revert i. induction args as [|v args IH]; intros i; [done|].
  cbn [map index_True].
  destruct (isinstance_Atoms v) eqn:Hv.
  - intros [= <-]. destruct v; try done. by eexists.
  - destruct (index_True (map isinstance_Atoms args)) as [j|]; [|done].
    intros [= <-]. by apply IH.
Qed.


(** What a record written from [args] holds under the reserved keys. *)
Lemma flush_data_lookups (args : list value) (kwargs : gmap string value)
    (atoms : value) (data : gmap string value) :
  _flush_data args kwargs = Ok (atoms, data) → no_reserved kwargs →
  data !! atoms_index_key = Some (VInt (payload_index args))
  ∧ ∀ i, data !! value_key i
         = if decide (Z.of_nat i = payload_index args) then None else args !! i.
Proof.
  unfold _flush_data, payload_index. intros Hdata [Hidx Hval].
  destruct (index_True (map isinstance_Atoms args)) as [ai|] eqn:Hai.
  - destruct (index_True_Some _ _ Hai) as [a Ha].
    unfold getitem_list in Hdata. rewrite Ha in Hdata. cbn in Hdata.
    injection Hdata as <- <-. split.
    + rewrite lookup_union_r by by rewrite lookup_delete_ne.
      by rewrite lookup_insert_eq.
    + intros i.
      rewrite lookup_union_r
        by (rewrite lookup_delete_ne; [done|apply not_eq_sym, value_key_ne_atoms]).
      rewrite lookup_insert_ne by apply not_eq_sym, value_key_ne_index.
      case_decide as Hi.
      * assert (i = ai) as -> by lia. apply lookup_delete_eq.
      * rewrite lookup_delete_ne by (intros H; apply value_key_inj in H; lia).
        apply dict_enumerate_lookup.
  - destruct (kwargs !! atoms_key) as [v|] eqn:Hv; [|done].
    cbn in Hdata. injection Hdata as <- <-. split.
    + rewrite lookup_union_r by by rewrite lookup_delete_ne.
      by rewrite lookup_insert_eq.
    + intros i.
      rewrite lookup_union_r
        by (rewrite lookup_delete_ne; [done|apply not_eq_sym, value_key_ne_atoms]).
      rewrite lookup_insert_ne by apply not_eq_sym, value_key_ne_index.
      rewrite decide_False by lia. apply dict_enumerate_lookup.
Qed.

(** Which payload [_flush_data] selects. *)
Lemma flush_data_payload (args : list value) (kwargs : gmap string value) :
  _flush_data args kwargs
  = match index_True (map isinstance_Atoms args) with
    | Some i =>
        match args !! i with
        | Some v =>
            Ok (v, delete atoms_key kwargs
                   ∪ <[atoms_index_key := VInt (Z.of_nat i)]>
                       (delete (value_key i)
                          (dict (map (λ iv : nat * value, (value_key iv.1, iv.2))
                                     (enumerate args)))))
        | None => Raise IndexError
        end
    | None =>
        match kwargs !! atoms_key with
        | Some v =>
            Ok (v, delete atoms_key kwargs
                   ∪ <[atoms_index_key := VInt (-1)]>
                       (dict (map (λ iv : nat * value, (value_key iv.1, iv.2))
                                  (enumerate args))))
        | None => Raise RuntimeError
        end
    end.
Proof.
  unfold _flush_data, getitem_list.
  destruct (index_True (map isinstance_Atoms args)) as [i|].
  - by destruct (args !! i).
  - by destruct (kwargs !! atoms_key).
Qed.

(** ** The loop of [load] *)

Lemma load_loop_mono (fuel fuel' : nat) (dbentry : Row) (atoms : option Atoms)
    (atomsi : value) (i : nat) (retvals : list value)
    (r : result (list value)) :
  load_loop fuel dbentry atoms atomsi i retvals = Some r → (fuel ≤ fuel')%nat →
  load_loop fuel' dbentry atoms atomsi i retvals = Some r.
Proof.
  revert fuel' i retvals.
  induction fuel as [|fuel IH]; intros fuel' i retvals; [done|].
  destruct fuel' as [|fuel']; [lia|]. cbn [load_loop]. intros Hrun Hle.
  destruct (eq_int i atomsi || bool_decide (is_Some (row_data dbentry !! value_key i)));
    [|done].
  destruct (eq_int i atomsi).
  - apply IH; [done|lia].
  - destruct (getitem (row_data dbentry) (value_key i)); [|done].
    apply IH; [done|lia].
Qed.

Lemma payload_index_lt (args : list value) :
  payload_index args < Z.of_nat (length args).
Proof.
  unfold payload_index.
  destruct (index_True (map isinstance_Atoms args)) as [i|] eqn:Hi; [|lia].
  apply index_True_Some in Hi as [a Ha]. apply lookup_lt_Some in Ha. lia.
Qed.

Lemma length_restored (args : list value) (a : Atoms) (atoms : option Atoms) :
  length (restored args a atoms) = length args.
Proof.
  unfold restored. destruct (index_True (map isinstance_Atoms args)); [|done].
  apply length_insert.
Qed.

Lemma restored_lookup (args : list value) (a : Atoms) (atoms : option Atoms)
    (i : nat) :
  (i < length args)%nat →
  restored args a atoms !! i
  = if decide (Z.of_nat i = payload_index args)
    then Some (VAtoms (mkAtoms (atoms_structure a) (atoms ≫= atoms_calculator)))
    else args !! i.
Proof.
  intros Hi. unfold restored, payload_index.
  destruct (index_True (map isinstance_Atoms args)) as [j|].
  - case_decide.
    + assert (i = j) as -> by lia. by apply list_lookup_insert_eq.
    + apply list_lookup_insert_ne. lia.
  - by rewrite decide_False by lia.
Qed.

(** Decoding a record written from [args] yields [args] back in order, with
    the persisted payload at the payload index. *)
Lemma load_loop_restored (dbentry : Row) (args : list value) (a : Atoms)
    (atoms : option Atoms) :
  row_structure dbentry = atoms_structure a →
  (∀ i, row_data dbentry !! value_key i
        = if decide (Z.of_nat i = payload_index args) then None else args !! i) →
  ∀ (m i : nat) (retvals : list value),
    (i + m = length args)%nat →
    load_loop (S m) dbentry atoms (VInt (payload_index args)) i retvals
    = Some (Ok (retvals ++ drop i (restored args a atoms))).
Proof.
  intros Hst Hval. induction m as [|m IH]; intros i retvals Him.
  - cbn [load_loop eq_int].
    pose proof (payload_index_lt args).
    rewrite bool_decide_eq_false_2 by lia.
    rewrite Hval, decide_False by lia.
    rewrite lookup_ge_None_2 by lia.
    rewrite bool_decide_eq_false_2 by (by intros [? ?]).
    cbn [orb]. rewrite drop_ge by (rewrite length_restored; lia).
    by rewrite app_nil_r.
  - cbn [load_loop eq_int] in IH |- *.
    assert (i < length args)%nat as Hi by lia.
    pose proof (restored_lookup args a atoms i Hi) as Hres.
    destruct (decide (Z.of_nat i = payload_index args)) as [Hp|Hp].
    + rewrite (bool_decide_eq_true_2 _ Hp). cbn [orb].
      rewrite IH by lia. rewrite (drop_S _ _ _ Hres), <- app_assoc.
      do 4 f_equal. unfold toatoms, set_calculator. rewrite Hst.
      by destruct atoms.
    + rewrite (bool_decide_eq_false_2 _ Hp). cbn [orb].
      destruct (lookup_lt_is_Some_2 args i Hi) as [v Hv].
      rewrite Hv in Hres. unfold getitem.
      rewrite Hval, decide_False, Hv by done.
      rewrite bool_decide_eq_true_2 by by eexists.
      rewrite IH by lia. by rewrite (drop_S _ _ _ Hres), <- app_assoc.
Qed.

(** *** The loop terminates within its fuel *)

Lemma keys_bound (l : list nat) (d : gmap string value) :
  NoDup l → (∀ j, j ∈ l → is_Some (d !! value_key j)) → (length l ≤ size d)%nat.
Proof.
  revert d. induction l as [|j l IH]; intros d Hnd Hin; [cbn; lia|].
  apply NoDup_cons in Hnd as [Hj Hnd].
  assert (is_Some (d !! value_key j)) as Hsome by (apply Hin; left).
  specialize (IH (delete (value_key j) d) Hnd).
  rewrite map_size_delete_Some in IH by done.
  assert (size d ≠ 0)%nat.
  { destruct Hsome as [v Hv]. by apply (map_size_ne_0_lookup_2 d (value_key j)). }
  cbn [length]. cut (length l ≤ pred (size d))%nat; [lia|].
  apply IH. intros j' Hj'.
  rewrite lookup_delete_ne.
  - apply Hin. by right.
  - intros Heq. apply value_key_inj in Heq. by subst j'.
Qed.

Lemma all_equal_short (l : list nat) :
  NoDup l → (∀ j k, j ∈ l → k ∈ l → j = k) → (length l ≤ 1)%nat.
Proof.
  intros Hnd Heq. destruct l as [|j [|k l]]; cbn; [lia..|].
  exfalso. apply NoDup_cons in Hnd as [Hj _]. apply Hj.
  rewrite (Heq j k); [left|left|right; left].
Qed.

Lemma eq_int_unique (i j : nat) (v : value) :
  eq_int i v = true → eq_int j v = true → i = j.
Proof.
  destruct v; try done. cbn [eq_int].
  intros Hi%bool_decide_eq_true Hj%bool_decide_eq_true. lia.
Qed.

(** While the loop has kept going up to [i], every index below [i] but at
    most one is a key of [data]. *)
Lemma loop_index_bound (d : gmap string value) (atomsi : value) (i : nat) :
  (∀ j, (j < i)%nat → eq_int j atomsi = true ∨ is_Some (d !! value_key j)) →
  (i ≤ S (size d))%nat.
Proof.
  intros Hran.
  pose proof (filter_app_complement (λ j, eq_int j atomsi = true) (seq 0 i)) as Hperm.
  apply Permutation_length in Hperm.
  rewrite length_app, length_seq in Hperm.
  assert (length (filter (λ j, eq_int j atomsi = true) (seq 0 i)) ≤ 1)%nat.
  { apply all_equal_short; [apply NoDup_filter, NoDup_seq|].
    intros j k [Hj _]%list_elem_of_filter [Hk _]%list_elem_of_filter.
    by eapply eq_int_unique. }
  assert (length (filter (λ j, ¬ eq_int j atomsi = true) (seq 0 i)) ≤ size d)%nat.
  { apply keys_bound; [apply NoDup_filter, NoDup_seq|].
    intros j [Hj Hin]%list_elem_of_filter.
    apply elem_of_seq in Hin. destruct (Hran j) as [?|?]; [lia|done..]. }
  lia.
Qed.

Lemma load_loop_total_from (dbentry : Row) (atoms : option Atoms)
    (atomsi : value) (fuel i : nat) (retvals : list value) :
  (∀ j, (j < i)%nat →
        eq_int j atomsi = true ∨ is_Some (row_data dbentry !! value_key j)) →
  (S (S (size (row_data dbentry))) ≤ fuel + i)%nat →
  is_Some (load_loop fuel dbentry atoms atomsi i retvals).
Proof.
  revert i retvals. induction fuel as [|fuel IH]; intros i retvals Hran Hfuel.
  - apply loop_index_bound in Hran. lia.
  - cbn [load_loop].
    destruct (eq_int i atomsi) eqn:Heq; cbn [orb].
    + apply IH; [|lia]. intros j Hj.
      destruct (decide (j = i)) as [->|]; [by left|apply Hran; lia].
    + case_bool_decide as Hkey; [|done].
      destruct Hkey as [v Hv]. unfold getitem. rewrite Hv.
      apply IH; [|lia]. intros j Hj.
      destruct (decide (j = i)) as [->|]; [right; by eexists|apply Hran; lia].
Qed.

(** The fuel that [load] gives its loop is never used up. *)
Lemma load_loop_total (dbentry : Row) (atoms : option Atoms) (atomsi : value) :
  is_Some (load_loop (load_fuel dbentry) dbentry atoms atomsi 0 []).
Proof.
  apply load_loop_total_from; [lia|]. unfold load_fuel. lia.
Qed.

Lemma load_loop_fuel (dbentry : Row) (atoms : option Atoms) (atomsi : value)
    (fuel : nat) (r : result (list value)) :
  load_loop fuel dbentry atoms atomsi 0 [] = Some r →
  load_loop (load_fuel dbentry) dbentry atoms atomsi 0 [] = Some r.
Proof.
  intros Hrun.
  destruct (load_loop_total dbentry atoms atomsi) as [r' Hr'].
  rewrite Hr'. f_equal.
  pose proof (load_loop_mono _ (fuel `max` load_fuel dbentry) _ _ _ _ _ _ Hrun) as H1.
  pose proof (load_loop_mono _ (fuel `max` load_fuel dbentry) _ _ _ _ _ _ Hr') as H2.
  rewrite H1 in H2 by lia. specialize (H2 ltac:(lia)). congruence.
Qed.

(** ** load, flush and save *)

Ltac step :=
  unfold _mangled_checkpoint_id,
    mbind, mret, M_bind, M_ret, bind, ret, raise, lift, get_self,
    set_in_checkpointed_region, set_db, try_except;
  cbn [checkpoint_id in_checkpointed_region db fst snd].

(** The tracker after a successful Enter, from a path without negative
    elements: the flag is set and the last element is at least 1. *)
Lemma increase_inv (self self' : Checkpoint) :
  _increase_checkpoint_id self = (self', Ok tt) →
  Forall (λ c, 0 ≤ c) (checkpoint_id self) →
  in_checkpointed_region self' = true ∧ db self' = db self
  ∧ ∃ q c, checkpoint_id self' = q ++ [c] ∧ 1 ≤ c.
Proof.
  destruct self as [p [|] s]; cbn [checkpoint_id].
  - rewrite increase_nested. intros [= <-] _. split_and!; [done..|].
    by exists p, 1.
  - destruct p as [|c q _] using rev_ind; [done|].
    intros Hinc Hnn. apply Forall_app in Hnn as [_ Hc].
    apply Forall_inv in Hc.
    destruct (decide (c + 1 < _max_id)).
    + rewrite increase_sibling in Hinc by done. injection Hinc as <-.
      split_and!; [done..|]. exists q, (c + 1). split; [done|lia].
    + by rewrite increase_overflow in Hinc.
Qed.

Lemma increase_db (self : Checkpoint) :
  db (_increase_checkpoint_id self).1 = db self.
Proof.
  destruct self as [p [|] s]; [done|]. run.
  destruct (index_last p) as [c|]; [|done]. run.
  by destruct (bool_decide (c + 1 < _max_id)).
Qed.

(** [load] on a miss: the exception is raised from the state that Enter
    left. *)
Lemma load_miss (atoms : option Atoms) (self self' : Checkpoint) (k : Z) :
  _increase_checkpoint_id self = (self', Ok tt) →
  mangled (checkpoint_id self') = Ok k →
  rows_at k (db self') = [] →
  load atoms self = (self', Raise NoCheckpoint).
Proof.
  intros Hinc Hk Hnil. unfold load. step. rewrite Hinc, Hk.
  unfold db_get. by rewrite Hnil.
Qed.

(** [load] on a hit: the record is decoded and the region closed. *)
Lemma load_hit (atoms : option Atoms) (self self' : Checkpoint) (k : Z)
    (dbentry : Row) (atomsi : value) (fuel : nat) (vs : list value)
    (q : list Z) (c : Z) :
  _increase_checkpoint_id self = (self', Ok tt) →
  mangled (checkpoint_id self') = Ok k →
  db_get k (db self') = Ok dbentry →
  row_data dbentry !! atoms_index_key = Some atomsi →
  load_loop fuel dbentry atoms atomsi 0 [] = Some (Ok vs) →
  in_checkpointed_region self' = true →
  checkpoint_id self' = q ++ [c] → 1 ≤ c →
  load atoms self
  = (mkCheckpoint (checkpoint_id self') false (db self'), Ok (pack vs)).
Proof.
  intros Hinc Hk Hget Hidx Hloop Hflag Hpath Hc.
  unfold load. step. rewrite Hinc, Hk, Hget. unfold getitem. rewrite Hidx.
  rewrite (load_loop_fuel _ _ _ _ _ Hloop). cbn [default].
  destruct self' as [p' f' s']. cbn [checkpoint_id in_checkpointed_region db] in *.
  subst p' f'. rewrite decrease_open by done.
  by destruct vs as [|v [|w vs]].
Qed.

Lemma store_put_fresh (k st : Z) (data : gmap string value) (s : Store) :
  rows_at k s = [] → store_put k st data s = store_add k st data s.
Proof. intros Hnil. unfold store_put, store_add. by rewrite rows_at_nil_filter. Qed.

Lemma flush_unfold (args : list value) (kwargs : gmap string value)
    (self : Checkpoint) :
  _flush args kwargs self
  = match _flush_data args kwargs with
    | Ok (atoms, data) => _flush_db atoms data self
    | Raise e => (self, Raise e)
    end.
Proof.
  unfold _flush. unfold mbind at 1, M_bind, bind, lift.
  by destruct (_flush_data args kwargs) as [[atoms data]|e].
Qed.

(** With no record at the current key, [_flush_db] just adds the row. *)
Lemma flush_db_fresh (self : Checkpoint) (k : Z) (a : Atoms)
    (data : gmap string value) :
  rows_at k (db self) = [] → mangled (checkpoint_id self) = Ok k →
  _flush_db (VAtoms a) data self
  = (mkCheckpoint (checkpoint_id self) (in_checkpointed_region self)
       (store_add k (atoms_structure a) data (db self)), Ok tt).
Proof.
  intros Hnil Hk. unfold _flush_db. run. rewrite Hk.
  unfold db_get. rewrite Hnil. cbn [is_KeyError]. run. by rewrite Hk.
Qed.

Lemma flush_fresh (self : Checkpoint) (k : Z) (args : list value)
    (kwargs : gmap string value) (a : Atoms) (data : gmap string value) :
  rows_at k (db self) = [] → mangled (checkpoint_id self) = Ok k →
  _flush_data args kwargs = Ok (VAtoms a, data) →
  _flush args kwargs self
  = (mkCheckpoint (checkpoint_id self) (in_checkpointed_region self)
       (store_add k (atoms_structure a) data (db self)), Ok tt).
Proof.
  intros Hnil Hk Hdata. rewrite flush_unfold, Hdata. by apply flush_db_fresh.
Qed.

Lemma flush_ok (self : Checkpoint) (k : Z) (args : list value)
    (kwargs : gmap string value) (a : Atoms) (data : gmap string value) :
  store_wf (db self) → mangled (checkpoint_id self) = Ok k →
  _flush_data args kwargs = Ok (VAtoms a, data) →
  _flush args kwargs self
  = (mkCheckpoint (checkpoint_id self) (in_checkpointed_region self)
       (store_put k (atoms_structure a) data (db self)), Ok tt).
Proof.
  intros Hwf Hk Hdata. rewrite flush_unfold, Hdata. by apply flush_db_spec.
Qed.

(** [_flush] leaves the tracker alone, and a failed [_flush] has written no
    row. *)
Lemma flush_frame (args : list value) (kwargs : gmap string value)
    (self : Checkpoint) :
  checkpoint_id (_flush args kwargs self).1 = checkpoint_id self
  ∧ in_checkpointed_region (_flush args kwargs self).1
    = in_checkpointed_region self
  ∧ (∀ e, (_flush args kwargs self).2 = Raise e →
          ∀ r, r ∈ rows (db (_flush args kwargs self).1) → r ∈ rows (db self)).
Proof.
  rewrite flush_unfold.
  destruct (_flush_data args kwargs) as [[atoms data]|e0]; [|done].
  apply flush_db_frame.
Qed.

Lemma flush_missing_payload (args : list value) (kwargs : gmap string value)
    (self : Checkpoint) :
  index_True (map isinstance_Atoms args) = None → kwargs !! atoms_key = None →
  _flush args kwargs self = (self, Raise RuntimeError).
Proof.
  intros Hpos Hnamed.
  by rewrite flush_unfold, flush_data_payload, Hpos, Hnamed.
Qed.

(** What a successful Exit leaves. *)
Lemma decrease_inv (self self' : Checkpoint) :
  _decrease_checkpoint_id self = (self', Ok tt) →
  in_checkpointed_region self' = false ∧ db self' = db self
  ∧ checkpoint_id self'
    = if in_checkpointed_region self then checkpoint_id self
      else but_last (checkpoint_id self).
Proof.
  destruct self as [p f s]. run. destruct f; cbn [negb]; run.
  - destruct (index_last p) as [c|]; [|done].
    destruct (bool_decide (1 ≤ c)); [|done]. by intros [= <-].
  - destruct (bool_decide (1 ≤ length (but_last p))%nat); [|done]. run.
    destruct (index_last (but_last p)) as [c|]; [|done].
    destruct (bool_decide (1 ≤ c)); [|done]. by intros [= <-].
Qed.

(** Exit never touches the database, and fails only on an assertion or on
    an empty path. *)
Lemma decrease_frame (self : Checkpoint) :
  db (_decrease_checkpoint_id self).1 = db self
  ∧ ((_decrease_checkpoint_id self).2 = Ok tt
     ∨ (_decrease_checkpoint_id self).2 = Raise AssertionError
     ∨ (_decrease_checkpoint_id self).2 = Raise IndexError).
Proof.
  destruct self as [p f s]. run. destruct f; cbn [negb]; run.
  - destruct (index_last p) as [c|e] eqn:Hl.
    + destruct (bool_decide (1 ≤ c)); auto.
    + unfold index_last in Hl. destruct (last p); simplify_eq. auto.
  - destruct (bool_decide (1 ≤ length (but_last p))%nat); [|auto]. run.
    destruct (index_last (but_last p)) as [c|e] eqn:Hl.
    + destruct (bool_decide (1 ≤ c)); auto.
    + unfold index_last in Hl. destruct (last (but_last p)); simplify_eq. auto.
Qed.

Lemma save_eq (args : list value) (kwargs : gmap string value)
    (self self' : Checkpoint) :
  _decrease_checkpoint_id self = (self', Ok tt) →
  save args kwargs self = _flush args kwargs self'.
Proof. intros Hdec. unfold save. unfold mbind at 1, M_bind, bind. by rewrite Hdec. Qed.

Lemma flush_eq (args : list value) (kwargs : gmap string value)
    (self : Checkpoint) :
  flush args kwargs self
  = _flush args kwargs
      (mkCheckpoint (checkpoint_id self) false (db self)).
Proof. reflexivity. Qed.

(** ** Claims on the session protocol *)

(** A miss of [load] and the write that follows it, by [flush] or by
    [save], at the key of the failed lookup. *)
Lemma miss_then_write
    (atoms : option Atoms) (self self' : Checkpoint) (k : Z)
    (args : list value) (kwargs : gmap string value) (a : Atoms)
    (data : gmap string value) :
  Forall (λ c, 0 ≤ c) (checkpoint_id self) →
  _increase_checkpoint_id self = (self', Ok tt) →
  mangled (checkpoint_id self') = Ok k →
  rows_at k (db self) = [] →
  _flush_data args kwargs = Ok (VAtoms a, data) →
  load atoms self = (self', Raise NoCheckpoint)
  ∧ in_checkpointed_region self' = true
  ∧ flush args kwargs self'
    = (mkCheckpoint (checkpoint_id self') false
         (store_add k (atoms_structure a) data (db self)), Ok tt)
  ∧ save args kwargs self'
    = (mkCheckpoint (checkpoint_id self') false
         (store_add k (atoms_structure a) data (db self)), Ok tt).
Proof.
  intros Hnn Hinc Hk Hnil Hdata.
  destruct (increase_inv _ _ Hinc Hnn) as (Hflag & Hdb & q & c & Hpath & Hc).
  rewrite <- Hdb in Hnil |- *. split_and!; [|done| |].
  - by eapply load_miss.
  - rewrite flush_eq. by erewrite flush_fresh.
  - destruct self' as [p' f' s']. cbn [checkpoint_id in_checkpointed_region db] in *.
    subst p' f'. erewrite save_eq by by apply decrease_open.
    by erewrite flush_fresh.
Qed.

(** C6: when [load] finds no record at the current key it raises
    [NoCheckpoint] from the state that Enter left, with the flag set and
    the path element in place; a following [flush] or [save] writes its
    record under exactly the key of the failed lookup. *)
Theorem load_miss_leaves_region_open
    (atoms : option Atoms) (self self' : Checkpoint) (k : Z)
    (args : list value) (kwargs : gmap string value) (a : Atoms)
    (data : gmap string value) :
  Forall (λ c, 0 ≤ c) (checkpoint_id self) →
  _increase_checkpoint_id self = (self', Ok tt) →
  mangled (checkpoint_id self') = Ok k →
  rows_at k (db self) = [] →
  _flush_data args kwargs = Ok (VAtoms a, data) →
  load atoms self = (self', Raise NoCheckpoint)
  ∧ in_checkpointed_region self' = true
  ∧ flush args kwargs self'
    = (mkCheckpoint (checkpoint_id self') false
         (store_add k (atoms_structure a) data (db self)), Ok tt)
  ∧ save args kwargs self'
    = (mkCheckpoint (checkpoint_id self') false
         (store_add k (atoms_structure a) data (db self)), Ok tt).
Proof. apply miss_then_write. Qed.

Lemma load_miss_leaves_region_open_witness :
  load None (__init__ empty_store)
  = (mkCheckpoint [1] true empty_store, Raise NoCheckpoint)
  ∧ save [VInt 5; VAtoms (mkAtoms 7 (Some 3))] ∅
      (mkCheckpoint [1] true empty_store)
    = (mkCheckpoint [1] false
         (store_add 1 7 {[ value_key 0 := VInt 5;
                           atoms_index_key := VInt 1 ]} empty_store), Ok tt).
Proof.
  pose proof (load_miss_leaves_region_open None (__init__ empty_store)
                (mkCheckpoint [1] true empty_store) 1
                [VInt 5; VAtoms (mkAtoms 7 (Some 3))] ∅ (mkAtoms 7 (Some 3))
                {[ value_key 0 := VInt 5; atoms_index_key := VInt 1 ]}) as H.
  destruct H as (Hload & _ & _ & Hsave).
  - repeat constructor. lia.
  - reflexivity.
  - reflexivity.
  - reflexivity.
  - vm_compute. reflexivity.
  - split; [exact Hload|exact Hsave].
Defined.

(** C5: from the initial state, two checkpointed blocks in sequence, each
    a miss followed by the closing [save], write their records under the
    keys of the paths [1] and [2]; the second block increments the last
    element and does not push a nested level. *)
Theorem sibling_increment (s : Store)
    (args1 args2 : list value) (kwargs1 kwargs2 : gmap string value)
    (a1 a2 : Atoms) (data1 data2 : gmap string value) :
  rows_at 1 s = [] → rows_at 2 s = [] →
  _flush_data args1 kwargs1 = Ok (VAtoms a1, data1) →
  _flush_data args2 kwargs2 = Ok (VAtoms a2, data2) →
  load_or_save args1 kwargs1 (__init__ s)
  = (mkCheckpoint [1] false (store_add 1 (atoms_structure a1) data1 s), Ok tt)
  ∧ (load_or_save args1 kwargs1;; load_or_save args2 kwargs2) (__init__ s)
    = (mkCheckpoint [2] false
         (store_add 2 (atoms_structure a2) data2
            (store_add 1 (atoms_structure a1) data1 s)), Ok tt)
  ∧ mangled [1] = Ok 1 ∧ mangled [2] = Ok 2 ∧ mangled [1; 1] = Ok 1001.
Proof.
  intros Hnil1 Hnil2 Hdata1 Hdata2.
  assert (load_or_save args1 kwargs1 (__init__ s)
          = (mkCheckpoint [1] false (store_add 1 (atoms_structure a1) data1 s),
             Ok tt)) as Hfirst.
  { destruct (miss_then_write None (__init__ s)
                (mkCheckpoint [1] true s) 1 args1 kwargs1 a1 data1)
      as (Hload & _ & _ & Hsave); try done.
    { repeat constructor. lia. }
    unfold load_or_save, try_except. unfold mbind at 1, M_bind, bind.
    rewrite Hload. cbn [is_NoCheckpoint]. exact Hsave. }
  split_and!; [exact Hfirst| |done..].
  unfold mbind at 1, M_bind, bind. rewrite Hfirst.
  destruct (miss_then_write None
              (mkCheckpoint [1] false (store_add 1 (atoms_structure a1) data1 s))
              (mkCheckpoint [2] true (store_add 1 (atoms_structure a1) data1 s))
              2 args2 kwargs2 a2 data2)
    as (Hload & _ & _ & Hsave); try done.
  { repeat constructor. lia. }
  { unfold rows_at, store_add in *. cbn [db rows].
    by rewrite filter_app, Hnil2, filter_cons_False, filter_nil. }
  unfold load_or_save, try_except. unfold mbind at 1, M_bind, bind.
  rewrite Hload. cbn [is_NoCheckpoint]. exact Hsave.
Qed.

Lemma sibling_increment_witness :
  (load_or_save [VAtoms (mkAtoms 7 None)] ∅;;
   load_or_save [VAtoms (mkAtoms 8 None); VInt 4] ∅) (__init__ empty_store)
  = (mkCheckpoint [2] false
       (mkStore [mkRow 1 1 7 {[ atoms_index_key := VInt 0 ]};
                 mkRow 2 2 8 {[ value_key 1 := VInt 4;
                                atoms_index_key := VInt 0 ]}] 3), Ok tt).
Proof.
  pose proof (sibling_increment empty_store
                [VAtoms (mkAtoms 7 None)] [VAtoms (mkAtoms 8 None); VInt 4] ∅ ∅
                (mkAtoms 7 None) (mkAtoms 8 None)
                {[ atoms_index_key := VInt 0 ]}
                {[ value_key 1 := VInt 4; atoms_index_key := VInt 0 ]}) as H.
  destruct H as (_ & H & _).
  - reflexivity.
  - reflexivity.
  - vm_compute. reflexivity.
  - vm_compute. reflexivity.
  - exact H.
Defined.

(** C1: from the open outer region [1], a nested Enter gives the path
    [1; 1]; the inner [save] persists its record under the key of [1; 1];
    the outer [save] then finds the flag cleared, pops the nested level and
    writes under the key of [1], the key it uses without a nested call;
    the record of [1; 1] stays retrievable. *)
Theorem nested_collapse (s : Store)
    (args_in args_out : list value) (kwargs_in kwargs_out : gmap string value)
    (a_in a_out : Atoms) (data_in data_out : gmap string value) :
  store_wf s →
  _flush_data args_in kwargs_in = Ok (VAtoms a_in, data_in) →
  _flush_data args_out kwargs_out = Ok (VAtoms a_out, data_out) →
  let outer := mkCheckpoint [1] true s in
  let s_in := store_put 1001 (atoms_structure a_in) data_in s in
  let s_out := store_put 1 (atoms_structure a_out) data_out s_in in
  _increase_checkpoint_id outer = (mkCheckpoint [1; 1] true s, Ok tt)
  ∧ (_increase_checkpoint_id;; save args_in kwargs_in) outer
    = (mkCheckpoint [1; 1] false s_in, Ok tt)
  ∧ (_increase_checkpoint_id;; save args_in kwargs_in;;
     save args_out kwargs_out) outer
    = (mkCheckpoint [1] false s_out, Ok tt)
  ∧ mangled [1; 1] = Ok 1001 ∧ mangled [1] = Ok 1
  ∧ db_get 1001 s_in = Ok (mkRow (nextid s) 1001 (atoms_structure a_in) data_in)
  ∧ db_get 1 s_out
    = Ok (mkRow (S (nextid s)) 1 (atoms_structure a_out) data_out)
  ∧ db_get 1001 s_out
    = Ok (mkRow (nextid s) 1001 (atoms_structure a_in) data_in)
  ∧ save args_out kwargs_out outer
    = (mkCheckpoint [1] false
         (store_put 1 (atoms_structure a_out) data_out s), Ok tt).
Proof.
  intros Hwf Hin Hout outer s_in s_out.
  assert (save args_in kwargs_in (mkCheckpoint [1; 1] true s)
          = (mkCheckpoint [1; 1] false s_in, Ok tt)) as Hsave_in.
  { erewrite save_eq by by apply (decrease_open [1] 1).
    by erewrite flush_ok. }
  assert (save args_out kwargs_out (mkCheckpoint [1; 1] false s_in)
          = (mkCheckpoint [1] false s_out, Ok tt)) as Hsave_out.
  { erewrite save_eq by by apply (decrease_collapse [] 1 1).
    erewrite flush_ok; [done|by apply store_put_wf|done..]. }
  unfold outer. split_and!.
  - reflexivity.
  - unfold mbind, M_bind, bind. rewrite increase_nested. cbn [app].
    by rewrite Hsave_in.
  - unfold mbind, M_bind, bind. rewrite increase_nested. cbn [app].
    by rewrite Hsave_in, Hsave_out.
  - reflexivity.
  - reflexivity.
  - apply db_get_put_same.
  - apply (db_get_put_same 1 _ _ s_in).
  - unfold s_out. rewrite db_get_put_other by done. apply db_get_put_same.
  - erewrite save_eq by by apply (decrease_open [] 1).
    by erewrite flush_ok.
Qed.

Lemma nested_collapse_witness :
  (_increase_checkpoint_id;; save [VAtoms (mkAtoms 7 None); VInt 2] ∅;;
   save [VStr "outer"; VAtoms (mkAtoms 8 None)] ∅)
    (mkCheckpoint [1] true empty_store)
  = (mkCheckpoint [1] false
       (mkStore [mkRow 1 1001 7 {[ value_key 1 := VInt 2;
                                   atoms_index_key := VInt 0 ]};
                 mkRow 2 1 8 {[ value_key 0 := VStr "outer";
                                atoms_index_key := VInt 1 ]}] 3), Ok tt).
Proof.
  pose proof (nested_collapse empty_store
                [VAtoms (mkAtoms 7 None); VInt 2]
                [VStr "outer"; VAtoms (mkAtoms 8 None)] ∅ ∅
                (mkAtoms 7 None) (mkAtoms 8 None)
                {[ value_key 1 := VInt 2; atoms_index_key := VInt 0 ]}
                {[ value_key 0 := VStr "outer"; atoms_index_key := VInt 1 ]})
    as H.
  destruct H as (_ & _ & H & _).
  - exact empty_store_wf.
  - vm_compute. reflexivity.
  - vm_compute. reflexivity.
  - exact H.
Defined.

(** A [load] that arrives at a key holding the record written from [args]
    returns those values. *)
Lemma load_written (atoms : option Atoms) (self self' : Checkpoint) (k : Z)
    (args : list value) (kwargs : gmap string value) (a : Atoms)
    (data : gmap string value) (id : nat) :
  _flush_data args kwargs = Ok (VAtoms a, data) → no_reserved kwargs →
  db_get k (db self) = Ok (mkRow id k (atoms_structure a) data) →
  Forall (λ c, 0 ≤ c) (checkpoint_id self) →
  _increase_checkpoint_id self = (self', Ok tt) →
  mangled (checkpoint_id self') = Ok k →
  load atoms self
  = (mkCheckpoint (checkpoint_id self') false (db self),
     Ok (pack (restored args a atoms))).
Proof.
  intros Hdata Hres Hget Hnn Hinc Hk.
  destruct (increase_inv _ _ Hinc Hnn) as (Hflag & Hdb & q & c & Hpath & Hc).
  destruct (flush_data_lookups _ _ _ _ Hdata Hres) as [Hidx Hval].
  rewrite <- Hdb in Hget |- *.
  eapply (load_hit atoms self self' k _ _ (S (length args))); try done.
  rewrite (load_loop_restored _ args a atoms); [by rewrite drop_0|done..].
Qed.

(** C4: [flush] clears the flag and leaves the path as it is; it replaces
    the record at the current key, so that after [flush] of [x] and then of
    [y] the key holds the one record built from [y] alone, and a [load]
    arriving at that key returns the values of [y]. *)
Theorem flush_overwrites (self : Checkpoint) (k : Z)
    (x y : list value) (kwargs_x kwargs_y : gmap string value)
    (ax ay : Atoms) (data_x data_y : gmap string value) :
  store_wf (db self) →
  mangled (checkpoint_id self) = Ok k →
  _flush_data x kwargs_x = Ok (VAtoms ax, data_x) →
  _flush_data y kwargs_y = Ok (VAtoms ay, data_y) →
  no_reserved kwargs_y →
  let s_x := store_put k (atoms_structure ax) data_x (db self) in
  let s_y := store_put k (atoms_structure ay) data_y s_x in
  flush x kwargs_x self = (mkCheckpoint (checkpoint_id self) false s_x, Ok tt)
  ∧ rows_at k s_x = [mkRow (nextid (db self)) k (atoms_structure ax) data_x]
  ∧ (flush x kwargs_x;; flush y kwargs_y) self
    = (mkCheckpoint (checkpoint_id self) false s_y, Ok tt)
  ∧ rows_at k s_y = [mkRow (S (nextid (db self))) k (atoms_structure ay) data_y]
  ∧ (∀ k', k' ≠ k → rows_at k' s_y = rows_at k' (db self))
  ∧ (∀ atoms reader reader',
       db reader = s_y →
       Forall (λ c, 0 ≤ c) (checkpoint_id reader) →
       _increase_checkpoint_id reader = (reader', Ok tt) →
       mangled (checkpoint_id reader') = Ok k →
       load atoms reader
       = (mkCheckpoint (checkpoint_id reader') false s_y,
          Ok (pack (restored y ay atoms)))).
Proof.
  intros Hwf Hk Hx Hy Hres s_x s_y.
  assert (flush x kwargs_x self
          = (mkCheckpoint (checkpoint_id self) false s_x, Ok tt)) as Hfx.
  { rewrite flush_eq. by erewrite flush_ok. }
  split_and!.
  - exact Hfx.
  - apply rows_at_put_same.
  - unfold mbind, M_bind, bind. rewrite Hfx, flush_eq.
    erewrite flush_ok; [done|by apply store_put_wf|done..].
  - apply (rows_at_put_same k _ _ s_x).
  - intros k' Hne. unfold s_y, s_x. by rewrite !rows_at_put_other.
  - intros atoms reader reader' Hdb Hnn Hinc Hkey. rewrite <- Hdb.
    eapply load_written; try done.
    rewrite Hdb. apply (db_get_put_same k _ _ s_x).
Qed.

Lemma flush_overwrites_witness :
  (flush [VInt 1; VAtoms (mkAtoms 7 None); VStr "x"] ∅;;
   flush [VAtoms (mkAtoms 8 None); VInt 2] ∅)
    (mkCheckpoint [1] true empty_store)
  = (mkCheckpoint [1] false
       (mkStore [mkRow 2 1 8 {[ value_key 1 := VInt 2;
                                atoms_index_key := VInt 0 ]}] 3), Ok tt)
  ∧ load None
      (__init__ (mkStore [mkRow 2 1 8 {[ value_key 1 := VInt 2;
                                         atoms_index_key := VInt 0 ]}] 3))
    = (mkCheckpoint [1] false
         (mkStore [mkRow 2 1 8 {[ value_key 1 := VInt 2;
                                  atoms_index_key := VInt 0 ]}] 3),
       Ok (VTuple [VAtoms (mkAtoms 8 None); VInt 2])).
Proof.
  pose proof (flush_overwrites (mkCheckpoint [1] true empty_store) 1
                [VInt 1; VAtoms (mkAtoms 7 None); VStr "x"]
                [VAtoms (mkAtoms 8 None); VInt 2] ∅ ∅
                (mkAtoms 7 None) (mkAtoms 8 None)
                {[ value_key 0 := VInt 1; value_key 2 := VStr "x";
                   atoms_index_key := VInt 1 ]}
                {[ value_key 1 := VInt 2; atoms_index_key := VInt 0 ]}) as H.
  destruct H as (_ & _ & Hflush & _ & _ & Hload).
  - exact empty_store_wf.
  - reflexivity.
  - vm_compute. reflexivity.
  - vm_compute. reflexivity.
  - split; [reflexivity|]. intros i. apply lookup_empty.
  - split; [exact Hflush|].
    apply (Hload None
             (__init__ (mkStore [mkRow 2 1 8 {[ value_key 1 := VInt 2;
                                                atoms_index_key := VInt 0 ]}] 3))
             (mkCheckpoint [1] true
                (mkStore [mkRow 2 1 8 {[ value_key 1 := VInt 2;
                                         atoms_index_key := VInt 0 ]}] 3))).
    + reflexivity.
    + repeat constructor. lia.
    + reflexivity.
    + reflexivity.
Defined.

(** A [save] of [args] and a [load] whose Enter arrives at the key that the
    [save] wrote under. *)
Lemma save_then_load_at_key (atoms : option Atoms)
    (self self1 reader reader' : Checkpoint) (k : Z)
    (args : list value) (kwargs : gmap string value) (a : Atoms)
    (data : gmap string value) :
  store_wf (db self) →
  _decrease_checkpoint_id self = (self1, Ok tt) →
  mangled (checkpoint_id self1) = Ok k →
  _flush_data args kwargs = Ok (VAtoms a, data) →
  no_reserved kwargs →
  db reader = db (save args kwargs self).1 →
  Forall (λ c, 0 ≤ c) (checkpoint_id reader) →
  _increase_checkpoint_id reader = (reader', Ok tt) →
  mangled (checkpoint_id reader') = Ok k →
  save args kwargs self
  = (mkCheckpoint (checkpoint_id self1) false
       (store_put k (atoms_structure a) data (db self)), Ok tt)
  ∧ load atoms reader
    = (mkCheckpoint (checkpoint_id reader') false (db reader),
       Ok (pack (restored args a atoms))).
Proof.
  intros Hwf Hdec Hk Hdata Hres Hdb Hnn Hinc Hkey.
  destruct (decrease_inv _ _ Hdec) as (Hflag & Hdb1 & _).
  assert (save args kwargs self
          = (mkCheckpoint (checkpoint_id self1) false
               (store_put k (atoms_structure a) data (db self)), Ok tt)) as Hsave.
  { rewrite (save_eq _ _ _ _ Hdec).
    erewrite flush_ok; [by rewrite Hflag, Hdb1|by rewrite Hdb1|done..]. }
  split; [exact Hsave|].
  rewrite Hsave in Hdb. cbn [fst db] in Hdb.
  eapply load_written; try done.
  rewrite Hdb. apply db_get_put_same.
Qed.


(** C3, as stated, fails at this input: from the open region [1] on an
    empty database, [save] of two values with one payload succeeds, and the
    [load] issued right after it in the same session moves on to the path
    [2] and raises [NoCheckpoint] instead of returning the two values. *)
Lemma save_then_load_same_session_misses :
  let args := [VInt 5; VAtoms (mkAtoms 7 None)] in
  let run := (save args ∅;; load None) (mkCheckpoint [1] true empty_store) in
  (save args ∅ (mkCheckpoint [1] true empty_store)).2 = Ok tt
  ∧ checkpoint_id run.1 = [2]
  ∧ run.2 = Raise NoCheckpoint
  ∧ run.2 ≠ Ok (VTuple args).
Proof. vm_compute. split_and!; [reflexivity..|discriminate]. Qed.

(** C8: a write with no [Atoms] among the positional values and none under
    the reserved named key fails, and the database is left as it was: no
    row is deleted or written, by [flush] and by [save] alike. *)
Theorem missing_payload_aborts (self : Checkpoint)
    (args : list value) (kwargs : gmap string value) :
  index_True (map isinstance_Atoms args) = None →
  kwargs !! atoms_key = None →
  _flush args kwargs self = (self, Raise RuntimeError)
  ∧ flush args kwargs self
    = (mkCheckpoint (checkpoint_id self) false (db self), Raise RuntimeError)
  ∧ db (save args kwargs self).1 = db self
  ∧ (∃ e, (save args kwargs self).2 = Raise e
          ∧ (e = RuntimeError ∨ e = AssertionError ∨ e = IndexError))
  ∧ (∀ self', _decrease_checkpoint_id self = (self', Ok tt) →
              save args kwargs self = (self', Raise RuntimeError)).
Proof.
  intros Hpos Hnamed.
  assert (∀ self', _decrease_checkpoint_id self = (self', Ok tt) →
                   save args kwargs self = (self', Raise RuntimeError)) as Hsave.
  { intros self' Hdec. rewrite (save_eq _ _ _ _ Hdec).
    by apply flush_missing_payload. }
  split_and!.
  - by apply flush_missing_payload.
  - rewrite flush_eq. by apply flush_missing_payload.
  - destruct (decrease_frame self) as [Hdb Hres].
    destruct (_decrease_checkpoint_id self) as [self' [[]|e]] eqn:Hdec.
    + by rewrite (Hsave self').
    + unfold save. unfold mbind at 1, M_bind, bind. by rewrite Hdec.
  - destruct (decrease_frame self) as [Hdb Hres].
    destruct (_decrease_checkpoint_id self) as [self' [[]|e]] eqn:Hdec.
    + rewrite (Hsave self') by done. eauto.
    + unfold save. unfold mbind at 1, M_bind, bind. rewrite Hdec.
      cbn [snd] in *. exists e. split; [done|].
      destruct Hres as [|[|]]; simplify_eq; auto.
  - exact Hsave.
Qed.

Lemma missing_payload_aborts_witness :
  flush [VInt 5; VStr "x"] {[ "tag" := VStr "f" ]}
    (mkCheckpoint [1] true
       (mkStore [mkRow 1 1 7 {[ atoms_index_key := VInt 0 ]}] 2))
  = (mkCheckpoint [1] false
       (mkStore [mkRow 1 1 7 {[ atoms_index_key := VInt 0 ]}] 2),
     Raise RuntimeError).
Proof.
  pose proof (missing_payload_aborts
                (mkCheckpoint [1] true
                   (mkStore [mkRow 1 1 7 {[ atoms_index_key := VInt 0 ]}] 2))
                [VInt 5; VStr "x"] {[ "tag" := VStr "f" ]}) as H.
  destruct H as (_ & H & _).
  - reflexivity.
  - vm_compute. reflexivity.
  - exact H.
Defined.

(** C9: [save] runs Exit before it encodes and writes.  When the write
    part fails, whatever the failure, [save] fails the same way and the
    tracker stays as Exit left it: the flag cleared and a popped level not
    put back; and no new row is in the database. *)
Theorem save_exits_before_write (self self1 : Checkpoint)
    (args : list value) (kwargs : gmap string value) (e : exn) :
  _decrease_checkpoint_id self = (self1, Ok tt) →
  (_flush args kwargs self1).2 = Raise e →
  (save args kwargs self).2 = Raise e
  ∧ checkpoint_id (save args kwargs self).1 = checkpoint_id self1
  ∧ in_checkpointed_region (save args kwargs self).1 = false
  ∧ (in_checkpointed_region self = false →
     checkpoint_id (save args kwargs self).1 = but_last (checkpoint_id self))
  ∧ (in_checkpointed_region self = true →
     checkpoint_id (save args kwargs self).1 = checkpoint_id self)
  ∧ (∀ r, r ∈ rows (db (save args kwargs self).1) → r ∈ rows (db self)).
Proof.
  intros Hdec Hfail.
  destruct (decrease_inv _ _ Hdec) as (Hflag & Hdb & Hpath).
  destruct (flush_frame args kwargs self1) as (Hp & Hf & Hrows).
  rewrite (save_eq _ _ _ _ Hdec). split_and!.
  - exact Hfail.
  - exact Hp.
  - by rewrite Hf.
  - intros Hopen. by rewrite Hp, Hpath, Hopen.
  - intros Hopen. by rewrite Hp, Hpath, Hopen.
  - intros r Hr. rewrite <- Hdb. by eapply Hrows.
Qed.

Lemma save_exits_before_write_witness :
  let self := mkCheckpoint [1; 1] false empty_store in
  (save [VInt 5] ∅ self).2 = Raise RuntimeError
  ∧ checkpoint_id (save [VInt 5] ∅ self).1 = [1]
  ∧ in_checkpointed_region (save [VInt 5] ∅ self).1 = false
  ∧ (in_checkpointed_region self = false →
     checkpoint_id (save [VInt 5] ∅ self).1 = but_last (checkpoint_id self))
  ∧ (in_checkpointed_region self = true →
     checkpoint_id (save [VInt 5] ∅ self).1 = checkpoint_id self)
  ∧ (∀ r, r ∈ rows (db (save [VInt 5] ∅ self).1) → r ∈ rows (db self)).
Proof.
  apply (save_exits_before_write
           (mkCheckpoint [1; 1] false empty_store)
           (mkCheckpoint [1] false empty_store)
           [VInt 5] ∅ RuntimeError).
  - reflexivity.
  - reflexivity.
Defined.

(** A record whose payload index is negative decodes to the values stored
    under the positional keys, in order, up to the first missing one; the
    persisted payload is never among the collected values. *)
Lemma load_loop_named (dbentry : Row) (atoms : option Atoms) (z : Z)
    (fuel i : nat) (retvals vs : list value) :
  z < 0 →
  length retvals = i →
  (∀ j, (j < i)%nat → row_data dbentry !! value_key j = retvals !! j) →
  load_loop fuel dbentry atoms (VInt z) i retvals = Some (Ok vs) →
  (∀ j, (j < length vs)%nat → row_data dbentry !! value_key j = vs !! j)
  ∧ row_data dbentry !! value_key (length vs) = None.
Proof.
  intros Hz. revert i retvals.
  induction fuel as [|fuel IH]; intros i retvals Hlen Hacc; [done|].
  cbn [load_loop eq_int]. rewrite bool_decide_eq_false_2 by lia. cbn [orb].
  case_bool_decide as Hkey.
  - destruct Hkey as [v Hv]. unfold getitem. rewrite Hv.
    apply IH.
    + rewrite length_app. cbn. lia.
    + intros j Hj. destruct (decide (j = i)) as [->|Hne].
      * rewrite Hv, <- Hlen. by rewrite list_lookup_middle.
      * rewrite lookup_app_l by lia. apply Hacc. lia.
  - intros [= <-]. rewrite Hlen. split; [done|].
    destruct (row_data dbentry !! value_key i) eqn:Hl; [|done].
    exfalso. apply Hkey. by eexists.
Qed.



(** * Further properties *)

(** ** The shape of [load] *)

Lemma load_unfold (atoms : option Atoms) (self : Checkpoint) :
  load atoms self
  = match _increase_checkpoint_id self with
    | (self', Ok _) =>
        match load_body atoms self' with
        | Ok vs =>
            match _decrease_checkpoint_id self' with
            | (self'', Ok _) => (self'', Ok (pack vs))
            | (self'', Raise e) => (self'', Raise e)
            end
        | Raise e => (self', Raise e)
        end
    | (self', Raise e) => (self', Raise e)
    end.
Proof.
  unfold load, load_body. step.
  destruct (_increase_checkpoint_id self) as [self' [[]|e]]; [|done].
  unfold mbind, result_bind.
  destruct (mangled (checkpoint_id self')) as [k|e]; [|done].
  destruct (db_get k (db self')) as [dbentry|e]; [|by destruct e].
  destruct (getitem (row_data dbentry) atoms_index_key) as [atomsi|e]; [|done].
  destruct (default (Raise OutOfFuel) _) as [vs|e]; [|done].
  destruct (_decrease_checkpoint_id self') as [self'' [[]|e]]; [|done].
  by destruct vs as [|v [|w vs]].
Qed.

(** ** The tracker invariant *)

Lemma valid_path_snoc (q : list Z) (c : Z) :
  valid_path q → 1 ≤ c < _max_id → valid_path (q ++ [c]).
Proof.
  intros Hq Hc. apply Forall_app. split; [done|].
  constructor; [done|constructor].
Qed.

Lemma increase_keeps_inv (self self' : Checkpoint) :
  tracker_inv self → _increase_checkpoint_id self = (self', Ok tt) →
  tracker_inv self' ∧ valid_path (checkpoint_id self')
  ∧ in_checkpointed_region self' = true ∧ db self' = db self.
Proof.
  destruct self as [p f s]. intros (q & c & Hp & Hq & Hc & Hopen).
  cbn [checkpoint_id in_checkpointed_region] in *. subst p.
  destruct f.
  - rewrite increase_nested. intros [= <-].
    assert (valid_path (q ++ [c])) by (apply valid_path_snoc; [done|]; lia).
    split_and!; [|apply valid_path_snoc; [done|unfold _max_id; lia]|done..].
    exists (q ++ [c]), 1.
    split_and!; try done; unfold _max_id; lia.
  - destruct (decide (c + 1 < _max_id)).
    + rewrite increase_sibling by done. intros [= <-].
      split_and!; [|apply valid_path_snoc; [done|lia]|done..].
      exists q, (c + 1). split_and!; try done; try lia.
    + by rewrite increase_overflow.
Qed.

Lemma decrease_keeps_inv (self self' : Checkpoint) :
  tracker_inv self → _decrease_checkpoint_id self = (self', Ok tt) →
  tracker_inv self' ∧ valid_path (checkpoint_id self')
  ∧ in_checkpointed_region self' = false ∧ db self' = db self.
Proof.
  destruct self as [p f s]. intros (q & c & Hp & Hq & Hc & Hopen).
  cbn [checkpoint_id in_checkpointed_region] in *. subst p.
  destruct f.
  - specialize (Hopen eq_refl). rewrite decrease_open by done. intros [= <-].
    split_and!; [|apply valid_path_snoc; [done|lia]|done..].
    exists q, c. split_and!; try done; lia.
  - clear Hopen. revert Hq. destruct q as [|c' q' _] using rev_ind; intros Hq.
    { intros Hdec. by vm_compute in Hdec. }
    apply Forall_app in Hq as [Hq' Hc']. apply Forall_inv in Hc'.
    rewrite decrease_collapse by lia. intros [= <-].
    split_and!; [|apply valid_path_snoc; [done|lia]|done..].
    exists q', c'. split_and!; try done; lia.
Qed.

(** Enter never touches the database, and fails only on the assertion or
    on an empty path. *)
Lemma increase_frame (self : Checkpoint) :
  db (_increase_checkpoint_id self).1 = db self
  ∧ ((_increase_checkpoint_id self).2 = Ok tt
     ∨ (_increase_checkpoint_id self).2 = Raise AssertionError
     ∨ (_increase_checkpoint_id self).2 = Raise IndexError).
Proof.
  destruct self as [p [|] s]; [by split; [|left]|]. run.
  destruct (index_last p) as [c|e] eqn:Hl.
  - run. destruct (bool_decide (c + 1 < _max_id)); auto.
  - unfold index_last in Hl. destruct (last p); simplify_eq. auto.
Qed.

Lemma flush_keeps_inv (args : list value) (kwargs : gmap string value)
    (self : Checkpoint) :
  tracker_inv self → tracker_inv (flush args kwargs self).1.
Proof.
  intros (q & c & Hp & Hq & Hc & _).
  rewrite flush_eq.
  destruct (flush_frame args kwargs
              (mkCheckpoint (checkpoint_id self) false (db self)))
    as (Hpath & Hflag & _).
  exists q, c. rewrite Hpath, Hflag. split_and!; try done; lia.
Qed.

(** X1: the tracker invariant holds initially and is kept by every call
    that returns or raises [NoCheckpoint]; after such a [load] or [save]
    the path has all its elements in [1, _max_id), the range on which the
    linear key is injective. *)
Theorem tracker_invariant (self : Checkpoint) :
  tracker_inv self →
  (∀ atoms, recoverable (load atoms self).2 →
            tracker_inv (load atoms self).1
            ∧ valid_path (checkpoint_id (load atoms self).1))
  ∧ (∀ args kwargs, tracker_inv (flush args kwargs self).1)
  ∧ (∀ args kwargs, recoverable (save args kwargs self).2 →
                     tracker_inv (save args kwargs self).1
                     ∧ valid_path (checkpoint_id (save args kwargs self).1)).
Proof.
  intros Hinv. split_and!.
  - intros atoms. rewrite load_unfold.
    destruct (_increase_checkpoint_id self) as [self' [[]|e]] eqn:Hinc.
    + destruct (increase_keeps_inv _ _ Hinv Hinc) as (Hinv' & Hval & _).
      destruct (load_body atoms self') as [vs|e]; [|done].
      destruct (_decrease_checkpoint_id self') as [self'' [[]|e]] eqn:Hdec.
      * intros _. by destruct (decrease_keeps_inv _ _ Hinv' Hdec) as (? & ? & _).
      * cbn. intros ->.
        destruct (decrease_frame self') as [_ Hres]. rewrite Hdec in Hres.
        by destruct Hres as [|[|]].
    + cbn. intros ->.
      destruct (increase_frame self) as [_ Hres]. rewrite Hinc in Hres.
      by destruct Hres as [|[|]].
  - intros args kwargs. by apply flush_keeps_inv.
  - intros args kwargs. unfold save. unfold mbind at 1 2 3, M_bind, bind.
    destruct (_decrease_checkpoint_id self) as [self' [[]|e]] eqn:Hdec.
    + destruct (decrease_keeps_inv _ _ Hinv Hdec) as ((q & c & Hp & Hq & Hc & _) & Hval & Hf & _).
      destruct (flush_frame args kwargs self') as (Hpath & Hflag & _).
      intros _. rewrite Hpath. split; [|done].
      exists q, c. rewrite Hpath, Hflag, Hf. split_and!; try done; lia.
    + cbn. intros ->.
      destruct (decrease_frame self) as [_ Hres]. rewrite Hdec in Hres.
      by destruct Hres as [|[|]].
Qed.

Lemma tracker_invariant_witness :
  (tracker_inv (load None (__init__ empty_store)).1
   ∧ valid_path (checkpoint_id (load None (__init__ empty_store)).1))
  ∧ tracker_inv (flush [VAtoms (mkAtoms 7 None)] ∅
                   (mkCheckpoint [1; 1] true empty_store)).1
  ∧ (tracker_inv (save [VAtoms (mkAtoms 7 None); VInt 2] ∅
                    (mkCheckpoint [1; 1] false empty_store)).1
     ∧ valid_path (checkpoint_id
                     (save [VAtoms (mkAtoms 7 None); VInt 2] ∅
                        (mkCheckpoint [1; 1] false empty_store)).1)).
Proof.
  destruct (tracker_invariant (__init__ empty_store)) as (Hload & _ & _).
  { exists [], 0. split_and!; try done; constructor. }
  destruct (tracker_invariant (mkCheckpoint [1; 1] true empty_store))
    as (_ & Hflush & _).
  { exists [1], 1. split_and!; try done. repeat constructor; done. }
  destruct (tracker_invariant (mkCheckpoint [1; 1] false empty_store))
    as (_ & _ & Hsave).
  { exists [1], 1. split_and!; try done. repeat constructor; done. }
  split; [|split].
  - apply (Hload None). reflexivity.
  - apply Hflush.
  - apply (Hsave [VAtoms (mkAtoms 7 None); VInt 2] ∅). exact I.
Defined.

(** ** The database under the calls *)

Lemma store_filter_wf (P : Row → Prop) `{!∀ r, Decision (P r)} (s : Store) :
  store_wf s → store_wf (mkStore (filter P (rows s)) (nextid s)).
Proof.
  intros (Hid & Hkey & Hlt). unfold store_wf. cbn [rows nextid]. split_and!.
  - clear Hkey Hlt. induction (rows s) as [|r l IH]; [constructor|].
    rewrite fmap_cons in Hid. apply NoDup_cons in Hid as [Hr Hid].
    destruct (decide (P r)).
    + rewrite filter_cons_True by done. rewrite fmap_cons.
      apply NoDup_cons. split; [|by apply IH].
      intros (x & Hx & Hin)%list_elem_of_fmap. apply Hr.
      apply list_elem_of_filter in Hin as [_ Hin].
      rewrite Hx. by apply list_elem_of_fmap_2.
    + rewrite filter_cons_False by done. by apply IH.
  - clear Hid Hlt. induction (rows s) as [|r l IH]; [constructor|].
    rewrite fmap_cons in Hkey. apply NoDup_cons in Hkey as [Hr Hkey].
    destruct (decide (P r)).
    + rewrite filter_cons_True by done. rewrite fmap_cons.
      apply NoDup_cons. split; [|by apply IH].
      intros (x & Hx & Hin)%list_elem_of_fmap. apply Hr.
      apply list_elem_of_filter in Hin as [_ Hin].
      rewrite Hx. by apply list_elem_of_fmap_2.
    + rewrite filter_cons_False by done. by apply IH.
  - apply Forall_forall. intros r [_ Hr]%list_elem_of_filter.
    rewrite Forall_forall in Hlt. by apply Hlt.
Qed.

Lemma rows_at_filter_other (k k' : Z) (s : Store) :
  k' ≠ k →
  rows_at k' (mkStore (filter (λ r, row_checkpoint_id r ≠ k) (rows s)) (nextid s))
  = rows_at k' s.
Proof.
  intros Hne. unfold rows_at. cbn [rows]. rewrite list_filter_filter.
  apply list_filter_iff. intros r. split; [by intros [? _]|].
  intros Hr. split; [done|congruence].
Qed.

(** The databases that the delete-then-write of [_flush] can leave. *)
Lemma flush_db_cases (atoms : value) (data : gmap string value)
    (self : Checkpoint) :
  store_wf (db self) →
  db (_flush_db atoms data self).1 = db self
  ∨ ∃ k, mangled (checkpoint_id self) = Ok k
         ∧ (db (_flush_db atoms data self).1
            = mkStore (filter (λ r, row_checkpoint_id r ≠ k) (rows (db self)))
                      (nextid (db self))
            ∨ ∃ st, db (_flush_db atoms data self).1
                    = store_put k st data (db self)).
Proof.
  intros (Hid & Hkey & _). unfold _flush_db. run.
  destruct (mangled (checkpoint_id self)) as [k|e0] eqn:Hm.
  2:{ left. destruct e0; cbn [is_KeyError]; run; rewrite ?Hm; run; done. }
  unfold db_get.
  destruct (rows_at_cases k (db self) Hkey) as [Hnil|(r & Hr & Hin & Hrk)].
  - rewrite Hnil. cbn [is_KeyError]. run. rewrite Hm.
    destruct atoms; run; cbn [db_write]; try by left.
    right. exists k. split; [done|]. right. eexists.
    cbn [fst db]. by rewrite store_put_fresh.
  - rewrite Hr. run. rewrite Hm. right. exists k. split; [done|].
    unfold db_delete. rewrite (delete_found_row _ r), Hrk by done.
    destruct atoms; run; cbn [db_write fst db rows nextid]; try by left.
    right. by eexists.
Qed.

Lemma flush_keeps_wf (args : list value) (kwargs : gmap string value)
    (self : Checkpoint) :
  store_wf (db self) → store_wf (db (_flush args kwargs self).1).
Proof.
  intros Hwf. rewrite flush_unfold.
  destruct (_flush_data args kwargs) as [[atoms data]|e]; [|done].
  destruct (flush_db_cases atoms data self Hwf)
    as [->|(k0 & Hk0 & [->|[st ->]])]; [done|..].
  - by apply store_filter_wf.
  - by apply store_put_wf.
Qed.

Lemma flush_other_keys (args : list value) (kwargs : gmap string value)
    (self : Checkpoint) (k k' : Z) :
  store_wf (db self) → mangled (checkpoint_id self) = Ok k → k' ≠ k →
  rows_at k' (db (_flush args kwargs self).1) = rows_at k' (db self).
Proof.
  intros Hwf Hk Hne. rewrite flush_unfold.
  destruct (_flush_data args kwargs) as [[atoms data]|e]; [|done].
  destruct (flush_db_cases atoms data self Hwf)
    as [->|(k0 & Hk0 & [->|[st ->]])]; [done|..];
    assert (k0 = k) as -> by congruence.
  - by apply rows_at_filter_other.
  - by apply rows_at_put_other.
Qed.

(** X2: a well-formed database (distinct row ids, one row per key) stays
    well formed under [flush] and [save], whether they succeed or fail. *)
Theorem write_keeps_store_wf (args : list value) (kwargs : gmap string value)
    (self : Checkpoint) :
  store_wf (db self) →
  store_wf (db (flush args kwargs self).1)
  ∧ store_wf (db (save args kwargs self).1).
Proof.
  intros Hwf. split.
  - rewrite flush_eq. by apply flush_keeps_wf.
  - unfold save. unfold mbind at 1, M_bind, bind.
    destruct (decrease_frame self) as [Hdb _].
    destruct (_decrease_checkpoint_id self) as [self' [[]|e]]; cbn [fst] in Hdb.
    + apply flush_keeps_wf. by rewrite Hdb.
    + cbn [fst]. by rewrite Hdb.
Qed.

Lemma write_keeps_store_wf_witness :
  store_wf (db (flush [VAtoms (mkAtoms 7 None)] ∅
                  (mkCheckpoint [1] true empty_store)).1)
  ∧ store_wf (db (save [VAtoms (mkAtoms 7 None)] ∅
                    (mkCheckpoint [1] true empty_store)).1).
Proof.
  apply (write_keeps_store_wf [VAtoms (mkAtoms 7 None)] ∅
           (mkCheckpoint [1] true empty_store)).
  exact empty_store_wf.
Defined.

(** X4: on a well-formed database [flush] changes the rows of the current
    key only, and [save] those of the key of the path that Exit leaves,
    whether they succeed or fail. *)
Theorem write_touches_current_key_only (args : list value)
    (kwargs : gmap string value) (self self' : Checkpoint) (k k' : Z) :
  store_wf (db self) → k' ≠ k →
  (mangled (checkpoint_id self) = Ok k →
   rows_at k' (db (flush args kwargs self).1) = rows_at k' (db self))
  ∧ (_decrease_checkpoint_id self = (self', Ok tt) →
     mangled (checkpoint_id self') = Ok k →
     rows_at k' (db (save args kwargs self).1) = rows_at k' (db self)).
Proof.
  intros Hwf Hne. split.
  - intros Hk. rewrite flush_eq.
    by apply (flush_other_keys _ _
                (mkCheckpoint (checkpoint_id self) false (db self)) k).
  - intros Hdec Hk. rewrite (save_eq _ _ _ _ Hdec).
    destruct (decrease_inv _ _ Hdec) as (_ & Hdb & _).
    rewrite <- Hdb. apply (flush_other_keys _ _ _ k); [by rewrite Hdb|done..].
Qed.

Lemma write_touches_current_key_only_witness :
  let s := mkStore [mkRow 1 1001 7 {[ atoms_index_key := VInt 0 ]}] 2 in
  rows_at 1001 (db (save [VAtoms (mkAtoms 8 None)] ∅
                      (mkCheckpoint [1; 1] false s)).1)
  = rows_at 1001 s.
Proof.
  intros s.
  refine (proj2 (write_touches_current_key_only [VAtoms (mkAtoms 8 None)] ∅
                   (mkCheckpoint [1; 1] false s) (mkCheckpoint [1] false s)
                   1 1001 _ _) _ _).
  - exact (store_put_wf 1001 7 {[ atoms_index_key := VInt 0 ]} empty_store
             empty_store_wf).
  - done.
  - reflexivity.
  - reflexivity.
Defined.

Lemma load_db (atoms : option Atoms) (self : Checkpoint) :
  db (load atoms self).1 = db self.
Proof.
  rewrite load_unfold.
  destruct (increase_frame self) as [Hdb _].
  destruct (_increase_checkpoint_id self) as [self' [[]|e]]; [|done].
  cbn [fst] in Hdb.
  destruct (load_body atoms self') as [vs|e]; [|done].
  destruct (decrease_frame self') as [Hdb' _].
  destruct (_decrease_checkpoint_id self') as [self'' [[]|e]];
    cbn [fst] in *; congruence.
Qed.

(** X3: [load] never changes the database, whatever its outcome. *)
Theorem load_never_writes (atoms : option Atoms) (self : Checkpoint) :
  db (load atoms self).1 = db self.
Proof. apply load_db. Qed.

(** ** Decoding of arbitrary records *)

Lemma load_loop_spec (dbentry : Row) (atoms : option Atoms) (atomsi : value)
    (fuel i : nat) (retvals : list value) (r : result (list value)) :
  length retvals = i →
  (∀ j, (j < i)%nat →
        retvals !! j
        = if eq_int j atomsi then Some (VAtoms (newatoms_of dbentry atoms))
          else row_data dbentry !! value_key j) →
  load_loop fuel dbentry atoms atomsi i retvals = Some r →
  ∃ vs, r = Ok vs
        ∧ (∀ j, (j < length vs)%nat →
                vs !! j
                = if eq_int j atomsi
                  then Some (VAtoms (newatoms_of dbentry atoms))
                  else row_data dbentry !! value_key j)
        ∧ eq_int (length vs) atomsi = false
        ∧ row_data dbentry !! value_key (length vs) = None.
Proof.
  revert i retvals.
  induction fuel as [|fuel IH]; intros i retvals Hlen Hacc; [done|].
  cbn [load_loop].
  destruct (eq_int i atomsi) eqn:Heq; cbn [orb].
  - apply IH.
    + rewrite length_app. cbn. lia.
    + intros j Hj. destruct (decide (j = i)) as [->|Hne].
      * rewrite Heq, <- Hlen, list_lookup_middle by done.
        do 2 f_equal. unfold newatoms_of, toatoms, set_calculator.
        by destruct atoms.
      * rewrite lookup_app_l by lia. apply Hacc. lia.
  - case_bool_decide as Hkey.
    + destruct Hkey as [v Hv]. unfold getitem. rewrite Hv. apply IH.
      * rewrite length_app. cbn. lia.
      * intros j Hj. destruct (decide (j = i)) as [->|Hne].
        -- by rewrite Heq, Hv, <- Hlen, list_lookup_middle.
        -- rewrite lookup_app_l by lia. apply Hacc. lia.
    + intros [= <-]. exists retvals. rewrite Hlen. split_and!; try done.
      destruct (row_data dbentry !! value_key i) eqn:Hl; [|done].
      exfalso. apply Hkey. by eexists.
Qed.

(** X5: for every record the loop of [load] ends within the fuel it is
    given and returns the values in order: the rebuilt payload at the index
    that equals the stored payload index, the stored positional value
    elsewhere, up to the first index that is neither. *)
Theorem load_loop_decodes (dbentry : Row) (atoms : option Atoms)
    (atomsi : value) :
  ∃ vs, load_loop (load_fuel dbentry) dbentry atoms atomsi 0 [] = Some (Ok vs)
        ∧ (∀ j, (j < length vs)%nat →
                vs !! j
                = if eq_int j atomsi
                  then Some (VAtoms (newatoms_of dbentry atoms))
                  else row_data dbentry !! value_key j)
        ∧ eq_int (length vs) atomsi = false
        ∧ row_data dbentry !! value_key (length vs) = None.
Proof.
  destruct (load_loop_total dbentry atoms atomsi) as [r Hr].
  destruct (load_loop_spec _ _ _ _ 0 [] r eq_refl ltac:(intros; lia) Hr)
    as (vs & -> & Hspec).
  by exists vs.
Qed.

(** X6: a record at the current key that lacks the payload index makes
    [load] raise [KeyError], not [NoCheckpoint], from the state that Enter
    left: the region stays open and the database is as it was. *)
Theorem load_record_without_index (atoms : option Atoms)
    (self self' : Checkpoint) (k : Z) (dbentry : Row) :
  _increase_checkpoint_id self = (self', Ok tt) →
  mangled (checkpoint_id self') = Ok k →
  db_get k (db self') = Ok dbentry →
  row_data dbentry !! atoms_index_key = None →
  load atoms self = (self', Raise KeyError).
Proof.
  intros Hinc Hk Hget Hidx. rewrite load_unfold, Hinc.
  unfold load_body, mbind, result_bind, getitem.
  by rewrite Hk, Hget, Hidx.
Qed.

Lemma load_record_without_index_witness :
  let s := mkStore [mkRow 1 1 7 {[ "energy" := VInt 3 ]}] 2 in
  load None (__init__ s) = (mkCheckpoint [1] true s, Raise KeyError).
Proof.
  intros s.
  apply (load_record_without_index None (__init__ s) (mkCheckpoint [1] true s)
           1 (mkRow 1 1 7 {[ "energy" := VInt 3 ]})).
  - reflexivity.
  - reflexivity.
  - reflexivity.
  - vm_compute. reflexivity.
Defined.

(** ** The record built by a write *)

Lemma dict_enumerate_Some (args : list value) (key : string) (v : value) :
  dict (map (λ iv : nat * value, (value_key iv.1, iv.2)) (enumerate args))
    !! key = Some v →
  ∃ i, key = value_key i ∧ args !! i = Some v.
Proof.
  induction args as [|x args IH] using rev_ind; [done|].
  rewrite enumerate_snoc, map_app. cbn [map fst snd]. rewrite dict_snoc.
  destruct (decide (key = value_key (length args))) as [->|Hne].
  - rewrite lookup_insert_eq. intros [= <-]. exists (length args).
    split; [done|]. by rewrite list_lookup_middle.
  - rewrite lookup_insert_ne by done. intros (i & Hi & Hv)%IH.
    exists i. split; [done|]. rewrite lookup_app_l; [done|].
    by eapply lookup_lt_Some.
Qed.

(** X7: in the [data] of a record the reserved name of the payload is
    never a key; every other named argument is stored as given, also when
    its name is one of the keys of the positional values or of the payload
    index, which it then replaces; and every entry comes from a named
    argument, a positional value or the payload index. *)
Theorem flush_data_named_fields (args : list value)
    (kwargs : gmap string value) (atoms : value) (data : gmap string value) :
  _flush_data args kwargs = Ok (atoms, data) →
  data !! atoms_key = None
  ∧ (∀ key v, key ≠ atoms_key → kwargs !! key = Some v → data !! key = Some v)
  ∧ (∀ key v, data !! key = Some v →
              kwargs !! key = Some v
              ∨ (key = atoms_index_key ∧ v = VInt (payload_index args))
              ∨ ∃ i, key = value_key i ∧ args !! i = Some v).
Proof.
  rewrite flush_data_payload. unfold payload_index.
  set (d := dict _).
  assert (∀ key v, d !! key = Some v →
                   ∃ i, key = value_key i ∧ args !! i = Some v) as Hd
    by apply dict_enumerate_Some.
  assert (d !! atoms_key = None) as Hda.
  { destruct (d !! atoms_key) as [v|] eqn:Hv; [|done].
    apply Hd in Hv as (i & Hi & _). symmetry in Hi.
    by apply value_key_ne_atoms in Hi. }
  intros Hdata.
  assert (∃ (z : Z) (d' : gmap string value),
            data = delete atoms_key kwargs ∪ <[atoms_index_key := VInt z]> d'
            ∧ z = match index_True (map isinstance_Atoms args) with
                  | Some i => Z.of_nat i
                  | None => -1
                  end
            ∧ d' !! atoms_key = None
            ∧ ∀ key v, d' !! key = Some v → d !! key = Some v)
    as (z & d' & -> & Hz & Hd'a & Hd').
  { destruct (index_True (map isinstance_Atoms args)) as [i|].
    - destruct (args !! i); [|done]. injection Hdata as <- <-.
      eexists _, _. split_and!; [done..| |].
      + rewrite lookup_delete_ne; [done|apply value_key_ne_atoms].
      + intros key w Hw. apply lookup_delete_Some in Hw. tauto.
    - destruct (kwargs !! atoms_key); [|done]. injection Hdata as <- <-.
      eexists _, _. by split_and!. }
  split_and!.
  - rewrite lookup_union_r by apply lookup_delete_eq.
    by rewrite lookup_insert_ne.
  - intros key v Hne Hv. apply lookup_union_Some_l.
    by rewrite lookup_delete_ne.
  - intros key v Hv. apply lookup_union_Some_raw in Hv as [Hv|[_ Hv]].
    + left. apply lookup_delete_Some in Hv. tauto.
    + right. destruct (decide (key = atoms_index_key)) as [->|Hne].
      * left. rewrite lookup_insert_eq in Hv. injection Hv as <-.
        by rewrite Hz.
      * right. rewrite lookup_insert_ne in Hv by done. by apply Hd, Hd'.
Qed.

Lemma flush_data_named_fields_witness :
  ∃ data,
    _flush_data [VAtoms (mkAtoms 7 None); VInt 1]
      {[ atoms_key := VNone; value_key 1 := VStr "named" ]}
    = Ok (VAtoms (mkAtoms 7 None), data)
    ∧ data !! atoms_key = None
    ∧ data !! value_key 1 = Some (VStr "named").
Proof.
  eexists. split; [vm_compute; reflexivity|].
  pose proof (flush_data_named_fields [VAtoms (mkAtoms 7 None); VInt 1]
                {[ atoms_key := VNone; value_key 1 := VStr "named" ]}
                (VAtoms (mkAtoms 7 None))
                {[ value_key 1 := VStr "named"; atoms_index_key := VInt 0 ]})
    as H.
  destruct H as (Ha & Hn & _); [vm_compute; reflexivity|].
  split; [exact Ha|].
  apply Hn; [discriminate|vm_compute; reflexivity].
Defined.

Lemma index_True_first (args : list value) (i : nat) (a : Atoms) :
  args !! i = Some (VAtoms a) →
  (∀ j v, (j < i)%nat → args !! j = Some v → isinstance_Atoms v = false) →
  index_True (map isinstance_Atoms args) = Some i.
Proof.
  revert i. induction args as [|x args IH]; intros i Hi Hbefore; [done|].
  cbn [map index_True]. destruct i as [|i].
  - injection Hi as ->. done.
  - rewrite (Hbefore 0%nat x) by (done || lia).
    rewrite (IH i); [done|done|].
    intros j v Hj Hv. apply (Hbefore (S j) v); [lia|done].
Qed.

(** X8: the payload of a write is the first [Atoms] among the positional
    values, whatever is passed by name; without a positional [Atoms] it is
    whatever object is passed under the reserved name; and without either
    the write raises [RuntimeError]. *)
Theorem flush_data_payload_choice (args : list value)
    (kwargs : gmap string value) :
  (∀ i a, args !! i = Some (VAtoms a) →
          (∀ j v, (j < i)%nat → args !! j = Some v →
                  isinstance_Atoms v = false) →
          ∃ data, _flush_data args kwargs = Ok (VAtoms a, data)
                  ∧ data !! value_key i = kwargs !! value_key i)
  ∧ (Forall (λ v, isinstance_Atoms v = false) args →
     match kwargs !! atoms_key with
     | Some v => ∃ data, _flush_data args kwargs = Ok (v, data)
     | None => _flush_data args kwargs = Raise RuntimeError
     end).
Proof.
  split.
  - intros i a Hi Hbefore. rewrite flush_data_payload.
    rewrite (index_True_first _ _ _ Hi Hbefore), Hi.
    eexists. split; [done|].
    rewrite lookup_union.
    rewrite lookup_delete_ne by apply not_eq_sym, value_key_ne_atoms.
    rewrite lookup_insert_ne by apply not_eq_sym, value_key_ne_index.
    rewrite lookup_delete_eq. by destruct (kwargs !! value_key i).
  - intros Hnone. rewrite flush_data_payload.
    assert (index_True (map isinstance_Atoms args) = None) as ->.
    { induction Hnone as [|x l Hx _ IH]; [done|].
      cbn [map index_True]. by rewrite Hx, IH. }
    destruct (kwargs !! atoms_key); [by eexists|done].
Qed.

Lemma flush_data_payload_choice_witness :
  ∃ data,
    _flush_data [VInt 1; VAtoms (mkAtoms 7 None); VAtoms (mkAtoms 8 None)]
      {[ atoms_key := VAtoms (mkAtoms 9 None) ]}
    = Ok (VAtoms (mkAtoms 7 None), data)
    ∧ data !! value_key 1 = None.
Proof.
  destruct (proj1 (flush_data_payload_choice
                     [VInt 1; VAtoms (mkAtoms 7 None); VAtoms (mkAtoms 8 None)]
                     {[ atoms_key := VAtoms (mkAtoms 9 None) ]})
              1%nat (mkAtoms 7 None)) as (data & Hdata & Hl).
  - reflexivity.
  - intros [|j] v Hj Hv; [by injection Hv as <-|lia].
  - exists data. split; [exact Hdata|]. rewrite Hl. vm_compute. reflexivity.
Defined.

(** ** More on the linear key *)

Lemma radix_sum_snoc (p : list Z) (c : Z) :
  radix_sum (p ++ [c]) = radix_sum p + _max_id ^ Z.of_nat (length p) * c.
Proof.
  induction p as [|d p IH].
  - cbn. lia.
  - cbn [app radix_sum length]. rewrite IH.
    replace (Z.of_nat (S (length p))) with (Z.of_nat (length p) + 1) by lia.
    rewrite Z.pow_add_r by lia. lia.
Qed.

(** X9: the key of a nested region is the key of the enclosing region plus
    the sibling counter of the nested one weighted by [_max_id] to the
    power of its depth; the empty path has no key ([reduce] raises
    [TypeError]). *)
Theorem mangled_nested (p : list Z) (c k : Z) :
  mangled p = Ok k →
  mangled (p ++ [c]) = Ok (k + _max_id ^ Z.of_nat (length p) * c)
  ∧ mangled [] = Raise TypeError.
Proof.
  intros Hk. split; [|done].
  destruct p as [|d p]; [done|].
  rewrite mangled_radix_sum in Hk. injection Hk as <-.
  change ((d :: p) ++ [c]) with (d :: (p ++ [c])).
  rewrite mangled_radix_sum. f_equal.
  change (d :: p ++ [c]) with ((d :: p) ++ [c]). apply radix_sum_snoc.
Qed.

Lemma mangled_nested_witness :
  mangled ([3; 2] ++ [6]) = Ok (2003 + _max_id ^ Z.of_nat 2 * 6)
  ∧ mangled [] = Raise TypeError.
Proof. apply (mangled_nested [3; 2] 6 2003). reflexivity. Defined.

Lemma radix_sum_range (p : list Z) :
  valid_path p → p ≠ [] →
  _max_id ^ (Z.of_nat (length p) - 1) ≤ radix_sum p
  < _max_id ^ Z.of_nat (length p).
Proof.
  induction 1 as [|c q Hc Hq IH]; [done|]. intros _.
  cbn [radix_sum length].
  replace (Z.of_nat (S (length q)) - 1) with (Z.of_nat (length q)) by lia.
  replace (Z.of_nat (S (length q))) with (Z.of_nat (length q) + 1) by lia.
  rewrite Z.pow_add_r by lia.
  destruct q as [|d q'].
  - cbn. unfold _max_id in *. lia.
  - specialize (IH ltac:(done)). cbn [length] in *.
    replace (Z.of_nat (S (length q')) - 1) with (Z.of_nat (length q')) in IH by lia.
    replace (Z.of_nat (S (length q'))) with (Z.of_nat (length q') + 1) in * by lia.
    rewrite Z.pow_add_r in * by lia.
    assert (0 < _max_id ^ Z.of_nat (length q')) by (apply Z.pow_pos_nonneg; unfold _max_id; lia).
    unfold _max_id in *. nia.
Qed.

(** X10: for a path with all elements in [1, _max_id), the key lies in
    the range [_max_id^(n-1), _max_id^n) of its depth [n]: the key
    determines the nesting depth. *)
Theorem mangled_range (p : list Z) (k : Z) :
  valid_path p → mangled p = Ok k →
  _max_id ^ (Z.of_nat (length p) - 1) ≤ k < _max_id ^ Z.of_nat (length p).
Proof.
  intros Hp Hk. destruct p as [|c q]; [done|].
  rewrite mangled_radix_sum in Hk. injection Hk as <-.
  by apply radix_sum_range.
Qed.

Lemma mangled_range_witness :
  _max_id ^ (Z.of_nat 2 - 1) ≤ 1001 < _max_id ^ Z.of_nat 2.
Proof.
  apply (mangled_range [1; 1] 1001).
  - repeat constructor; unfold _max_id; lia.
  - reflexivity.
Defined.

(** ** How the calls compose *)

(** X11: a [flush] after a successful [load] replaces the record that the
    [load] read: the path is the one Enter left and the key the same. *)
Theorem flush_after_hit (atoms : option Atoms) (self self' : Checkpoint)
    (k : Z) (v : value) (args : list value) (kwargs : gmap string value)
    (a : Atoms) (data : gmap string value) :
  store_wf (db self) →
  _increase_checkpoint_id self = (self', Ok tt) →
  mangled (checkpoint_id self') = Ok k →
  (load atoms self).2 = Ok v →
  _flush_data args kwargs = Ok (VAtoms a, data) →
  (load atoms ≫= λ _, flush args kwargs) self
  = (mkCheckpoint (checkpoint_id self') false
       (store_put k (atoms_structure a) data (db self)), Ok tt).
Proof.
  intros Hwf Hinc Hk Hhit Hdata.
  pose proof (load_db atoms self) as Hdb.
  rewrite load_unfold, Hinc in Hhit, Hdb.
  unfold mbind, M_bind, bind. rewrite load_unfold, Hinc.
  destruct (load_body atoms self') as [vs|e]; [|done].
  destruct (_decrease_checkpoint_id self') as [self'' [[]|e]] eqn:Hdec; [|done].
  cbn [fst] in Hdb.
  destruct (decrease_inv _ _ Hdec) as (_ & _ & Hpath).
  assert (in_checkpointed_region self' = true) as Hflag.
  { destruct self as [p [|] s]; [by injection Hinc as <-|].
    revert Hinc. run. destruct (index_last p); [|done]. run.
    destruct (bool_decide (_ < _max_id)); [|done]. by intros [= <-]. }
  rewrite Hflag in Hpath. rewrite flush_eq, Hpath, Hdb.
  by erewrite flush_ok.
Qed.

Lemma flush_after_hit_witness :
  let s := mkStore [mkRow 1 1 7 {[ atoms_index_key := VInt 0 ]}] 2 in
  (load None ≫= λ _, flush [VAtoms (mkAtoms 8 None)] ∅) (__init__ s)
  = (mkCheckpoint [1] false
       (mkStore [mkRow 2 1 8 {[ atoms_index_key := VInt 0 ]}] 3), Ok tt).
Proof.
  intros s.
  apply (flush_after_hit None (__init__ s) (mkCheckpoint [1] true s) 1
           (VAtoms (mkAtoms 7 None)) [VAtoms (mkAtoms 8 None)] ∅
           (mkAtoms 8 None) {[ atoms_index_key := VInt 0 ]}).
  - exact (store_put_wf 1 7 {[ atoms_index_key := VInt 0 ]} empty_store
             empty_store_wf).
  - reflexivity.
  - reflexivity.
  - vm_compute. reflexivity.
  - vm_compute. reflexivity.
Defined.



(** X13: at depth one a [save] that finds the flag cleared (a [save] with
    no open region, as on a fresh object, or after a [flush]) fails on the
    assertion with the path already emptied and the database untouched;
    from then on [load] raises [IndexError] and a write with a payload
    raises [TypeError]. *)
Theorem save_without_open_region (c : Z) (s : Store) (atoms : option Atoms)
    (args : list value) (kwargs : gmap string value) :
  save args kwargs (mkCheckpoint [c] false s)
  = (mkCheckpoint [] false s, Raise AssertionError)
  ∧ load atoms (mkCheckpoint [] false s)
    = (mkCheckpoint [] false s, Raise IndexError)
  ∧ (∀ payload data, _flush_data args kwargs = Ok (payload, data) →
       flush args kwargs (mkCheckpoint [] false s)
       = (mkCheckpoint [] false s, Raise TypeError)
       ∧ save args kwargs (mkCheckpoint [] false s)
         = (mkCheckpoint [] false s, Raise AssertionError)).
Proof.
  split_and!; [done..|].
  intros payload data Hdata. split; [|done].
  rewrite flush_eq, flush_unfold, Hdata. reflexivity.
Qed.

Lemma save_without_open_region_witness :
  save [VAtoms (mkAtoms 7 None)] ∅ (__init__ empty_store)
  = (mkCheckpoint [] false empty_store, Raise AssertionError)
  ∧ flush [VAtoms (mkAtoms 7 None)] ∅ (mkCheckpoint [] false empty_store)
    = (mkCheckpoint [] false empty_store, Raise TypeError).
Proof.
  destruct (save_without_open_region 0 empty_store None
              [VAtoms (mkAtoms 7 None)] ∅) as (Hsave & _ & Hflush).
  split; [exact Hsave|].
  apply (Hflush (VAtoms (mkAtoms 7 None)) {[ atoms_index_key := VInt 0 ]}).
  vm_compute. reflexivity.
Defined.

(** ** The call wrapper *)

Lemma wrapper_named_no_reserved (atoms : option Atoms) (name : string) :
  no_reserved (wrapper_named atoms name).
Proof.
  unfold wrapper_named. split.
  - by rewrite lookup_insert_ne, lookup_singleton_ne.
  - intros i. rewrite lookup_insert_ne, lookup_singleton_ne; [done|..].
    + apply not_eq_sym. unfold value_key, func_name_key. cbn. discriminate.
    + apply not_eq_sym, value_key_ne_atoms.
Qed.

Lemma call_unfold (func : list value → gmap string value → M value)
    (name : string) (args : list value) (kwargs : gmap string value)
    (self : Checkpoint) :
  __call__ func name args kwargs self
  = match load (first_Atoms args) self with
    | (self', Raise NoCheckpoint) =>
        match func args kwargs self' with
        | (self'', Ok retvals) =>
            match save (as_values retvals)
                    (wrapper_named (first_Atoms args) name) self'' with
            | (self3, Ok _) => (self3, Ok retvals)
            | (self3, Raise e) => (self3, Raise e)
            end
        | (self'', Raise e) => (self'', Raise e)
        end
    | r => r
    end.
Proof.
  unfold __call__, try_except.
  destruct (load (first_Atoms args) self) as [self' [v|e]]; [done|].
  destruct e; cbn [is_NoCheckpoint]; try done.
  unfold mbind, M_bind, bind.
  destruct (func args kwargs self') as [self'' [retvals|e]]; [|done].
  by destruct retvals.
Qed.

(** The first call of a wrapped function on a miss and a later call that
    arrives at the same key. *)
Lemma wrapper_miss_then_hit
    (func : list value → gmap string value → M value) (name : string)
    (args : list value) (kwargs : gmap string value)
    (self self' : Checkpoint) (k : Z) (retvals : value)
    (a : Atoms) (data : gmap string value) :
  Forall (λ c, 0 ≤ c) (checkpoint_id self) →
  _increase_checkpoint_id self = (self', Ok tt) →
  mangled (checkpoint_id self') = Ok k →
  rows_at k (db self) = [] →
  func args kwargs self' = (self', Ok retvals) →
  _flush_data (as_values retvals) (wrapper_named (first_Atoms args) name)
  = Ok (VAtoms a, data) →
  let s' := store_add k (atoms_structure a) data (db self) in
  __call__ func name args kwargs self
  = (mkCheckpoint (checkpoint_id self') false s', Ok retvals)
  ∧ (∀ func' name' args' kwargs' reader reader',
       db reader = s' →
       Forall (λ c, 0 ≤ c) (checkpoint_id reader) →
       _increase_checkpoint_id reader = (reader', Ok tt) →
       mangled (checkpoint_id reader') = Ok k →
       __call__ func' name' args' kwargs' reader
       = (mkCheckpoint (checkpoint_id reader') false s',
          Ok (pack (restored (as_values retvals) a (first_Atoms args'))))).
Proof.
  intros Hnn Hinc Hk Hnil Hfunc Hdata s'.
  destruct (miss_then_write (first_Atoms args) self self' k _ _ a data
              Hnn Hinc Hk Hnil Hdata) as (Hload & _ & _ & Hsave).
  split.
  - by rewrite call_unfold, Hload, Hfunc, Hsave.
  - intros func' name' args' kwargs' reader reader' Hdb Hnn' Hinc' Hk'.
    assert (db_get k (db reader)
            = Ok (mkRow (nextid (db self)) k (atoms_structure a) data)) as Hget.
    { rewrite Hdb. unfold s'. rewrite <- store_put_fresh by done.
      apply db_get_put_same. }
    rewrite call_unfold.
    rewrite (load_written (first_Atoms args') reader reader' k _ _ a data _
               Hdata (wrapper_named_no_reserved _ _) Hget Hnn' Hinc' Hk').
    by rewrite Hdb.
Qed.

(** X14: on a miss the decorated function calls the wrapped function,
    saves its return value under the current key and returns it; a later
    call that arrives at that key, with whatever wrapped function and
    arguments, returns the saved values without calling the function, the
    payload being the persisted copy with the calculator of the first
    [Atoms] among the arguments of that call. *)
Theorem wrapper_transparency
    (func : list value → gmap string value → M value) (name : string)
    (args : list value) (kwargs : gmap string value)
    (self self' : Checkpoint) (k : Z) (retvals : value)
    (a : Atoms) (data : gmap string value) :
  Forall (λ c, 0 ≤ c) (checkpoint_id self) →
  _increase_checkpoint_id self = (self', Ok tt) →
  mangled (checkpoint_id self') = Ok k →
  rows_at k (db self) = [] →
  func args kwargs self' = (self', Ok retvals) →
  _flush_data (as_values retvals) (wrapper_named (first_Atoms args) name)
  = Ok (VAtoms a, data) →
  let s' := store_add k (atoms_structure a) data (db self) in
  __call__ func name args kwargs self
  = (mkCheckpoint (checkpoint_id self') false s', Ok retvals)
  ∧ (∀ func' name' args' kwargs' reader reader',
       db reader = s' →
       Forall (λ c, 0 ≤ c) (checkpoint_id reader) →
       _increase_checkpoint_id reader = (reader', Ok tt) →
       mangled (checkpoint_id reader') = Ok k →
       __call__ func' name' args' kwargs' reader
       = (mkCheckpoint (checkpoint_id reader') false s',
          Ok (pack (restored (as_values retvals) a (first_Atoms args'))))).
Proof. apply wrapper_miss_then_hit. Qed.

Lemma wrapper_transparency_witness :
  let func := λ (args : list value) (_ : gmap string value),
                mret (VTuple (args ++ [VInt 42])) : M value in
  let s' := mkStore [mkRow 1 1 7 {[ func_name_key := VStr "f";
                                    value_key 1 := VInt 42;
                                    atoms_index_key := VInt 0 ]}] 2 in
  __call__ func "f" [VAtoms (mkAtoms 7 (Some 3))] ∅ (__init__ empty_store)
  = (mkCheckpoint [1] false s',
     Ok (VTuple [VAtoms (mkAtoms 7 (Some 3)); VInt 42]))
  ∧ __call__ (λ _ _, raise RuntimeError) "g" [VAtoms (mkAtoms 0 (Some 9))] ∅
      (__init__ s')
    = (mkCheckpoint [1] false s',
       Ok (VTuple [VAtoms (mkAtoms 7 (Some 9)); VInt 42])).
Proof.
  intros func s'.
  destruct (wrapper_transparency func "f" [VAtoms (mkAtoms 7 (Some 3))] ∅
              (__init__ empty_store) (mkCheckpoint [1] true empty_store) 1
              (VTuple [VAtoms (mkAtoms 7 (Some 3)); VInt 42])
              (mkAtoms 7 (Some 3))
              {[ func_name_key := VStr "f"; value_key 1 := VInt 42;
                 atoms_index_key := VInt 0 ]}) as [Hfirst Hlater].
  - repeat constructor. lia.
  - reflexivity.
  - reflexivity.
  - reflexivity.
  - reflexivity.
  - vm_compute. reflexivity.
  - split; [exact Hfirst|].
    apply (Hlater (λ _ _, raise RuntimeError) "g"
             [VAtoms (mkAtoms 0 (Some 9))] ∅ (__init__ s')
             (mkCheckpoint [1] true s')).
    + reflexivity.
    + repeat constructor. lia.
    + reflexivity.
    + reflexivity.
Defined.

(** X15: a wrapped function that returns a one-element tuple has the
    tuple returned by the first call, but the bare element by a later call
    that finds the saved record: [load] returns a single value as it is. *)
Theorem wrapper_one_tuple_unwrapped
    (func : list value → gmap string value → M value) (name : string)
    (args : list value) (kwargs : gmap string value)
    (self self' : Checkpoint) (k : Z) (v : value) (a : Atoms) :
  Forall (λ c, 0 ≤ c) (checkpoint_id self) →
  _increase_checkpoint_id self = (self', Ok tt) →
  mangled (checkpoint_id self') = Ok k →
  rows_at k (db self) = [] →
  func args kwargs self' = (self', Ok (VTuple [v])) →
  isinstance_Atoms v = false →
  first_Atoms args = Some a →
  (__call__ func name args kwargs self).2 = Ok (VTuple [v])
  ∧ (∀ func' name' args' kwargs' reader reader',
       db reader = db (__call__ func name args kwargs self).1 →
       Forall (λ c, 0 ≤ c) (checkpoint_id reader) →
       _increase_checkpoint_id reader = (reader', Ok tt) →
       mangled (checkpoint_id reader') = Ok k →
       (__call__ func' name' args' kwargs' reader).2 = Ok v).
Proof.
  intros Hnn Hinc Hk Hnil Hfunc Hv Ha.
  assert (∃ data, _flush_data [v] (wrapper_named (first_Atoms args) name)
                  = Ok (VAtoms a, data)) as [data Hdata].
  { rewrite flush_data_payload. cbn [map index_True]. rewrite Hv. cbn.
    rewrite Ha. unfold wrapper_named. rewrite lookup_insert_eq. by eexists. }
  destruct (wrapper_miss_then_hit func name args kwargs self self' k
              (VTuple [v]) a data Hnn Hinc Hk Hnil Hfunc Hdata)
    as [Hfirst Hlater].
  rewrite Hfirst. split; [done|].
  intros func' name' args' kwargs' reader reader' Hdb Hnn' Hinc' Hk'.
  rewrite (Hlater func' name' args' kwargs' reader reader' Hdb Hnn' Hinc' Hk').
  cbn [snd as_values]. unfold restored. cbn [map index_True]. by rewrite Hv.
Qed.

Lemma wrapper_one_tuple_unwrapped_witness :
  let func := λ (_ : list value) (_ : gmap string value),
                mret (VTuple [VInt 42]) : M value in
  (__call__ func "f" [VAtoms (mkAtoms 7 None)] ∅ (__init__ empty_store)).2
  = Ok (VTuple [VInt 42])
  ∧ (__call__ func "f" [VAtoms (mkAtoms 7 None)] ∅
       (__init__ (db (__call__ func "f" [VAtoms (mkAtoms 7 None)] ∅
                        (__init__ empty_store)).1))).2
    = Ok (VInt 42).
Proof.
  intros func.
  destruct (wrapper_one_tuple_unwrapped func "f" [VAtoms (mkAtoms 7 None)] ∅
              (__init__ empty_store) (mkCheckpoint [1] true empty_store) 1
              (VInt 42) (mkAtoms 7 None)) as [Hfirst Hlater].
  - repeat constructor. lia.
  - reflexivity.
  - reflexivity.
  - reflexivity.
  - reflexivity.
  - reflexivity.
  - reflexivity.
  - split; [exact Hfirst|].
    apply (Hlater func "f" [VAtoms (mkAtoms 7 None)] ∅ (__init__ _)
             (mkCheckpoint [1] true
                (db (__call__ func "f" [VAtoms (mkAtoms 7 None)] ∅
                       (__init__ empty_store)).1))).
    + reflexivity.
    + repeat constructor. lia.
    + reflexivity.
    + reflexivity.
Defined.

(** ** Replay of a sequence of blocks *)

Lemma rows_at_add_same (k st : Z) (d : gmap string value) (s : Store) :
  rows_at k (store_add k st d s) = rows_at k s ++ [mkRow (nextid s) k st d].
Proof.
  unfold rows_at, store_add. cbn [rows].
  by rewrite filter_app, filter_cons_True, filter_nil.
Qed.

Lemma rows_at_add_other (k j st : Z) (d : gmap string value) (s : Store) :
  k ≠ j → rows_at j (store_add k st d s) = rows_at j s.
Proof.
  intros Hne. unfold rows_at, store_add. cbn [rows].
  by rewrite filter_app, filter_cons_False, filter_nil, app_nil_r.
Qed.

Lemma rows_at_add_blocks_below (bs : list (list value * gmap string value))
    (j0 j : Z) (s : Store) :
  j < j0 → rows_at j (store_add_blocks j0 bs s) = rows_at j s.
Proof.
  revert j0 s. induction bs as [|b bs IH]; intros j0 s Hlt; [done|].
  cbn [store_add_blocks]. rewrite IH by lia.
  destruct (block_record b) as [[a d]|]; [|done].
  apply rows_at_add_other. lia.
Qed.

Lemma db_get_add_blocks (bs : list (list value * gmap string value))
    (j0 : Z) (s : Store) (i : nat) (b : list value * gmap string value) :
  (∀ j, j0 ≤ j → rows_at j s = []) →
  Forall block_ok bs →
  bs !! i = Some b →
  ∃ id a d, block_record b = Some (a, d)
            ∧ db_get (j0 + Z.of_nat i) (store_add_blocks j0 bs s)
              = Ok (mkRow id (j0 + Z.of_nat i) (atoms_structure a) d).
Proof.
  revert j0 s i. induction bs as [|b0 bs IH]; intros j0 s i Hfree Hok Hi; [done|].
  apply Forall_cons in Hok as [[[[a d] Hrec] _] Hok].
  cbn [store_add_blocks]. rewrite Hrec.
  destruct i as [|i].
  - injection Hi as <-. exists (nextid s), a, d. split; [done|].
    replace (j0 + Z.of_nat 0) with j0 by lia.
    unfold db_get. rewrite rows_at_add_blocks_below by lia.
    by rewrite rows_at_add_same, Hfree by lia.
  - replace (j0 + Z.of_nat (S i)) with ((j0 + 1) + Z.of_nat i) by lia.
    apply IH; [|done..].
    intros j Hj. rewrite rows_at_add_other by lia. apply Hfree. lia.
Qed.

Lemma mangled_singleton (c : Z) : mangled [c] = Ok c.
Proof. reflexivity. Qed.

Lemma save_blocks_from (bs : list (list value * gmap string value))
    (m : Z) (s : Store) :
  0 ≤ m → m + Z.of_nat (length bs) < _max_id →
  (∀ j, m < j → rows_at j s = []) →
  Forall block_ok bs →
  save_blocks bs (mkCheckpoint [m] false s)
  = (mkCheckpoint [m + Z.of_nat (length bs)] false
       (store_add_blocks (m + 1) bs s), Ok tt).
Proof.
  revert m s. induction bs as [|b bs IH]; intros m s Hm Hlen Hfree Hok.
  - cbn. unfold mret, M_ret, ret. do 3 f_equal. lia.
  - apply Forall_cons in Hok as [[Hrec _] Hok]. cbn [length] in Hlen.
    destruct (block_record b) as [[a d]|] eqn:Hb; [|by destruct Hrec].
    cbn [save_blocks store_add_blocks length]. rewrite Hb.
    assert (_flush_data b.1 b.2 = Ok (VAtoms a, d)) as Hdata.
    { unfold block_record in Hb.
      destruct (_flush_data b.1 b.2) as [[[] ?]|]; by simplify_eq. }
    destruct (miss_then_write None (mkCheckpoint [m] false s)
                (mkCheckpoint [m + 1] true s) (m + 1) b.1 b.2 a d)
      as (Hload & _ & _ & Hsave).
    { repeat constructor. lia. }
    { apply (increase_sibling [] m s). lia. }
    { apply mangled_singleton. }
    { apply Hfree. lia. }
    { done. }
    unfold mbind at 1, M_bind, bind.
    unfold load_or_save, try_except. unfold mbind at 1, M_bind, bind.
    rewrite Hload. cbn [is_NoCheckpoint]. rewrite Hsave.
    cbn [checkpoint_id db].
    rewrite IH; [|lia|lia| |done].
    + do 3 f_equal. cbn [length]. lia.
    + intros j Hj. rewrite rows_at_add_other by lia. apply Hfree. lia.
Qed.

Lemma load_blocks_from (bs : list (list value * gmap string value))
    (m : Z) (s : Store) :
  0 ≤ m → m + Z.of_nat (length bs) < _max_id →
  (∀ i b, bs !! i = Some b →
          ∃ id a d, block_record b = Some (a, d)
                    ∧ db_get (m + 1 + Z.of_nat i) s
                      = Ok (mkRow id (m + 1 + Z.of_nat i) (atoms_structure a) d)) →
  Forall block_ok bs →
  load_blocks (length bs) (mkCheckpoint [m] false s)
  = (mkCheckpoint [m + Z.of_nat (length bs)] false s,
     Ok (map block_restored bs)).
Proof.
  revert m. induction bs as [|b bs IH]; intros m Hm Hlen Hget Hok.
  - cbn. unfold mret, M_ret, ret. do 3 f_equal. lia.
  - apply Forall_cons in Hok as [[_ Hres] Hok]. cbn [length] in Hlen.
    destruct (Hget 0%nat b eq_refl) as (id & a & d & Hb & Hrow).
    replace (m + 1 + Z.of_nat 0) with (m + 1) in Hrow by lia.
    assert (_flush_data b.1 b.2 = Ok (VAtoms a, d)) as Hdata.
    { unfold block_record in Hb.
      destruct (_flush_data b.1 b.2) as [[[] ?]|]; by simplify_eq. }
    pose proof (load_written None (mkCheckpoint [m] false s)
                  (mkCheckpoint [m + 1] true s) (m + 1) b.1 b.2 a d id
                  Hdata Hres Hrow) as Hload.
    cbn [length load_blocks map]. unfold mbind at 1, M_bind, bind.
    rewrite Hload.
    2:{ repeat constructor. lia. }
    2:{ apply (increase_sibling [] m s). lia. }
    2:{ apply mangled_singleton. }
    cbn [checkpoint_id db]. unfold mbind at 1, M_bind, bind.
    rewrite IH; [|lia|lia| |done].
    + unfold mret, M_ret, ret, block_restored at 2. rewrite Hb.
      do 3 f_equal. lia.
    + intros i b' Hi. destruct (Hget (S i) b' Hi) as (id' & a' & d' & Hb' & Hrow').
      replace (m + 1 + Z.of_nat (S i)) with (m + 1 + 1 + Z.of_nat i) in Hrow' by lia.
      by exists id', a', d'.
Qed.

(** X16: a fresh session that runs [n < _max_id] checkpointed blocks in
    sequence on a database without records at positive keys saves them
    under the keys 1 to [n]; a new session on the resulting database that
    calls [load] [n] times gets the values of the blocks back in order, and
    both sessions end at the path [n] with the flag cleared. *)
Theorem replay_of_sequential_blocks
    (bs : list (list value * gmap string value)) (s : Store) :
  Z.of_nat (length bs) < _max_id →
  (∀ j, 0 < j → rows_at j s = []) →
  Forall block_ok bs →
  save_blocks bs (__init__ s)
  = (mkCheckpoint [Z.of_nat (length bs)] false (store_add_blocks 1 bs s), Ok tt)
  ∧ load_blocks (length bs) (__init__ (store_add_blocks 1 bs s))
    = (mkCheckpoint [Z.of_nat (length bs)] false (store_add_blocks 1 bs s),
       Ok (map block_restored bs)).
Proof.
  intros Hlen Hfree Hok. split.
  - apply (save_blocks_from bs 0 s); [lia|lia|done..].
  - apply (load_blocks_from bs 0); [lia|lia| |done].
    intros i b Hi.
    apply (db_get_add_blocks bs (0 + 1) s i b); [|done..].
    intros j Hj. apply Hfree. lia.
Qed.

Lemma replay_of_sequential_blocks_witness :
  let bs := [([VAtoms (mkAtoms 7 (Some 3)); VInt 1], ∅);
             ([VInt 2], {[ atoms_key := VAtoms (mkAtoms 8 None) ]})] in
  save_blocks bs (__init__ empty_store)
  = (mkCheckpoint [2] false (store_add_blocks 1 bs empty_store), Ok tt)
  ∧ load_blocks 2 (__init__ (store_add_blocks 1 bs empty_store))
    = (mkCheckpoint [2] false (store_add_blocks 1 bs empty_store),
       Ok [VTuple [VAtoms (mkAtoms 7 None); VInt 1]; VInt 2]).
Proof.
  intros bs.
  apply (replay_of_sequential_blocks bs empty_store).
  - vm_compute. reflexivity.
  - reflexivity.
  - apply Forall_cons. split; [|apply Forall_cons; split; [|constructor]].
    + split; [vm_compute; by eexists|].
      split; [reflexivity|intros i; apply lookup_empty].
    + split; [vm_compute; by eexists|].
      split; [reflexivity|].
      intros i. apply lookup_singleton_ne, not_eq_sym, value_key_ne_atoms.
Defined.

(** ** Resuming inside a nested region *)

(** X17: in an open region whose own record is missing while the record of
    its first nested region is there (a run that was interrupted between
    the two saves), the nested [load] returns the nested values and leaves
    the nested level on the path with the flag cleared; the [save] of the
    enclosing region then pops that level and writes under the enclosing
    key. *)
Theorem resume_after_nested_hit (atoms : option Atoms)
    (q : list Z) (c : Z) (s : Store) (k_in k_out : Z) (id : nat)
    (args_in args_out : list value) (kwargs_in kwargs_out : gmap string value)
    (a_in a_out : Atoms) (data_in data_out : gmap string value) :
  store_wf s → 1 ≤ c → Forall (λ c, 0 ≤ c) q →
  mangled ((q ++ [c]) ++ [1]) = Ok k_in →
  mangled (q ++ [c]) = Ok k_out →
  _flush_data args_in kwargs_in = Ok (VAtoms a_in, data_in) →
  no_reserved kwargs_in →
  db_get k_in s = Ok (mkRow id k_in (atoms_structure a_in) data_in) →
  _flush_data args_out kwargs_out = Ok (VAtoms a_out, data_out) →
  load atoms (mkCheckpoint (q ++ [c]) true s)
  = (mkCheckpoint ((q ++ [c]) ++ [1]) false s,
     Ok (pack (restored args_in a_in atoms)))
  ∧ (load atoms ≫= λ _, save args_out kwargs_out)
      (mkCheckpoint (q ++ [c]) true s)
    = (mkCheckpoint (q ++ [c]) false
         (store_put k_out (atoms_structure a_out) data_out s), Ok tt).
Proof.
  intros Hwf Hc Hq Hkin Hkout Hin Hres Hget Hout.
  assert (load atoms (mkCheckpoint (q ++ [c]) true s)
          = (mkCheckpoint ((q ++ [c]) ++ [1]) false s,
             Ok (pack (restored args_in a_in atoms)))) as Hload.
  { apply (load_written atoms (mkCheckpoint (q ++ [c]) true s)
             (mkCheckpoint ((q ++ [c]) ++ [1]) true s) k_in
             args_in kwargs_in a_in data_in id); try done.
    apply Forall_app. split; [done|]. constructor; [lia|constructor]. }
  split; [exact Hload|].
  unfold mbind, M_bind, bind. rewrite Hload.
  erewrite save_eq by by apply decrease_collapse.
  by erewrite flush_ok.
Qed.

Lemma resume_after_nested_hit_witness :
  let s := mkStore [mkRow 1 1001 7 {[ value_key 1 := VInt 5;
                                      atoms_index_key := VInt 0 ]}] 2 in
  load None (mkCheckpoint [1] true s)
  = (mkCheckpoint [1; 1] false s, Ok (VTuple [VAtoms (mkAtoms 7 None); VInt 5]))
  ∧ (load None ≫= λ _, save [VAtoms (mkAtoms 8 None)] ∅)
      (mkCheckpoint [1] true s)
    = (mkCheckpoint [1] false
         (store_put 1 8 {[ atoms_index_key := VInt 0 ]} s), Ok tt).
Proof.
  intros s.
  apply (resume_after_nested_hit None [] 1 s 1001 1 1%nat
           [VAtoms (mkAtoms 7 (Some 3)); VInt 5] [VAtoms (mkAtoms 8 None)]
           ∅ ∅ (mkAtoms 7 (Some 3)) (mkAtoms 8 None)
           {[ value_key 1 := VInt 5; atoms_index_key := VInt 0 ]}
           {[ atoms_index_key := VInt 0 ]}).
  - exact (store_put_wf 1001 7 {[ value_key 1 := VInt 5;
                                  atoms_index_key := VInt 0 ]}
             empty_store empty_store_wf).
  - lia.
  - constructor.
  - reflexivity.
  - reflexivity.
  - vm_compute. reflexivity.
  - split; [reflexivity|]. intros i. apply lookup_empty.
  - reflexivity.
  - vm_compute. reflexivity.
Defined.

(** ** More on the call wrapper *)

Lemma first_Atoms_found (args : list value) (a : Atoms) :
  fold_left (λ atoms x,
               match atoms, x with
               | None, VAtoms y => Some y
               | _, _ => atoms
               end) args (Some a) = Some a.
Proof. induction args as [|x args IH]; [done|]. cbn. by destruct x. Qed.

(** X18: the decorated function hands to [load] the first [Atoms] among
    its positional arguments, the one a write of the same values would
    take as its payload, and [None] when there is no [Atoms]. *)
Theorem first_Atoms_is_first (args : list value) :
  first_Atoms args
  = match index_True (map isinstance_Atoms args) with
    | Some i =>
        match args !! i with
        | Some (VAtoms a) => Some a
        | _ => None
        end
    | None => None
    end.
Proof.
  unfold first_Atoms. induction args as [|x args IH]; [done|].
  cbn [fold_left map index_True].
  destruct x; cbn [isinstance_Atoms]; try by (rewrite IH;
    destruct (index_True (map isinstance_Atoms args))).
  apply first_Atoms_found.
Qed.

(** X19: when the wrapped function raises, on a miss, the decorated
    function lets the exception through and writes nothing; the region it
    entered stays open, so that the next Enter opens a nested level
    instead of incrementing the counter. *)
Theorem wrapper_failure_leaves_region_open
    (func : list value → gmap string value → M value) (name : string)
    (args : list value) (kwargs : gmap string value)
    (self self' : Checkpoint) (k : Z) (e : exn) :
  _increase_checkpoint_id self = (self', Ok tt) →
  in_checkpointed_region self' = true →
  mangled (checkpoint_id self') = Ok k →
  rows_at k (db self') = [] →
  func args kwargs self' = (self', Raise e) →
  __call__ func name args kwargs self = (self', Raise e)
  ∧ _increase_checkpoint_id (__call__ func name args kwargs self).1
    = (mkCheckpoint (checkpoint_id self' ++ [1]) true (db self'), Ok tt).
Proof.
  intros Hinc Hflag Hk Hnil Hfunc.
  assert (__call__ func name args kwargs self = (self', Raise e)) as Hcall.
  { rewrite call_unfold.
    by rewrite (load_miss _ _ _ _ Hinc Hk Hnil), Hfunc. }
  split; [exact Hcall|]. rewrite Hcall. cbn [fst].
  destruct self' as [p' f' s']. cbn [in_checkpointed_region] in Hflag.
  subst f'. apply increase_nested.
Qed.

Lemma wrapper_failure_leaves_region_open_witness :
  __call__ (λ _ _, raise RuntimeError) "f" [] ∅ (__init__ empty_store)
  = (mkCheckpoint [1] true empty_store, Raise RuntimeError)
  ∧ _increase_checkpoint_id
      (__call__ (λ _ _, raise RuntimeError) "f" [] ∅ (__init__ empty_store)).1
    = (mkCheckpoint [1; 1] true empty_store, Ok tt).
Proof.
  apply (wrapper_failure_leaves_region_open (λ _ _, raise RuntimeError) "f"
           [] ∅ (__init__ empty_store) (mkCheckpoint [1] true empty_store)
           1 RuntimeError); reflexivity.
Defined.

(** X20: a decorated function that calls another decorated function, in a
    fresh session on a database without records at the keys 1 and 1001:
    the inner return value is saved under the key of [1; 1], the outer one
    under the key of [1], and the session ends at the path [1]; a new
    session on the resulting database gets the outer return value from the
    record at key 1 without running either function. *)
Theorem nested_wrappers
    (inner func' : list value → gmap string value → M value)
    (name_in name_out name' : string)
    (args args' : list value) (kwargs kwargs' : gmap string value)
    (s : Store) (retvals : value)
    (a_in a_out : Atoms) (data_in data_out : gmap string value) :
  rows_at 1 s = [] → rows_at 1001 s = [] →
  inner args kwargs (mkCheckpoint [1; 1] true s)
  = (mkCheckpoint [1; 1] true s, Ok retvals) →
  _flush_data (as_values retvals) (wrapper_named (first_Atoms args) name_in)
  = Ok (VAtoms a_in, data_in) →
  _flush_data (as_values retvals) (wrapper_named (first_Atoms args) name_out)
  = Ok (VAtoms a_out, data_out) →
  let s' := store_add 1 (atoms_structure a_out) data_out
              (store_add 1001 (atoms_structure a_in) data_in s) in
  __call__ (__call__ inner name_in) name_out args kwargs (__init__ s)
  = (mkCheckpoint [1] false s', Ok retvals)
  ∧ __call__ func' name' args' kwargs' (__init__ s')
    = (mkCheckpoint [1] false s',
       Ok (pack (restored (as_values retvals) a_out (first_Atoms args')))).
Proof.
  intros Hnil1 Hnil2 Hinner Hin Hout s'.
  set (s1 := store_add 1001 (atoms_structure a_in) data_in s).
  assert (rows_at 1 s1 = []) as Hnil1'
    by (unfold s1; by rewrite rows_at_add_other).
  split.
  - rewrite call_unfold.
    rewrite (load_miss (first_Atoms args) (__init__ s)
               (mkCheckpoint [1] true s) 1) by done.
    destruct (wrapper_miss_then_hit inner name_in args kwargs
                (mkCheckpoint [1] true s) (mkCheckpoint [1; 1] true s) 1001
                retvals a_in data_in) as [-> _]; try done.
    { repeat constructor. lia. }
    cbn [checkpoint_id db]. fold s1.
    erewrite save_eq by by apply (decrease_collapse [] 1 1).
    by erewrite flush_fresh.
  - assert (db_get 1 (db (__init__ s'))
            = Ok (mkRow (nextid s1) 1 (atoms_structure a_out) data_out))
      as Hget.
    { unfold db_get, s'. cbn [db __init__]. fold s1.
      by rewrite rows_at_add_same, Hnil1'. }
    assert (Forall (λ c, 0 ≤ c) (checkpoint_id (__init__ s'))) as Hnn
      by (repeat constructor; lia).
    rewrite call_unfold.
    by rewrite (load_written (first_Atoms args') (__init__ s')
                  (mkCheckpoint [1] true s') 1 (as_values retvals)
                  (wrapper_named (first_Atoms args) name_out) a_out data_out
                  (nextid s1) Hout (wrapper_named_no_reserved _ _) Hget Hnn
                  eq_refl eq_refl).
Qed.

Lemma nested_wrappers_witness :
  let inner := λ (args : list value) (_ : gmap string value),
                 mret (VTuple (args ++ [VInt 42])) : M value in
  let s' := mkStore [mkRow 1 1001 7 {[ func_name_key := VStr "inner";
                                       value_key 1 := VInt 42;
                                       atoms_index_key := VInt 0 ]};
                     mkRow 2 1 7 {[ func_name_key := VStr "outer";
                                    value_key 1 := VInt 42;
                                    atoms_index_key := VInt 0 ]}] 3 in
  __call__ (__call__ inner "inner") "outer" [VAtoms (mkAtoms 7 (Some 3))] ∅
    (__init__ empty_store)
  = (mkCheckpoint [1] false s',
     Ok (VTuple [VAtoms (mkAtoms 7 (Some 3)); VInt 42]))
  ∧ __call__ (λ _ _, raise RuntimeError) "outer" [] ∅ (__init__ s')
    = (mkCheckpoint [1] false s', Ok (VTuple [VAtoms (mkAtoms 7 None); VInt 42])).
Proof.
  intros inner s'.
  apply (nested_wrappers inner (λ _ _, raise RuntimeError)
           "inner" "outer" "outer" [VAtoms (mkAtoms 7 (Some 3))] [] ∅ ∅
           empty_store (VTuple [VAtoms (mkAtoms 7 (Some 3)); VInt 42])
           (mkAtoms 7 (Some 3)) (mkAtoms 7 (Some 3))
           {[ func_name_key := VStr "inner"; value_key 1 := VInt 42;
              atoms_index_key := VInt 0 ]}
           {[ func_name_key := VStr "outer"; value_key 1 := VInt 42;
              atoms_index_key := VInt 0 ]}).
  - reflexivity.
  - reflexivity.
  - reflexivity.
  - vm_compute. reflexivity.
  - vm_compute. reflexivity.
Defined.

(** ** An iterative loop of flushes *)

Lemma flush_all_from (xs : list (list value * gmap string value))
    (self : Checkpoint) (k : Z) :
  store_wf (db self) → mangled (checkpoint_id self) = Ok k →
  Forall (λ x, is_Some (block_record x)) xs →
  ∃ s', flush_all xs self
        = (mkCheckpoint (checkpoint_id self)
             (if xs is [] then in_checkpointed_region self else false) s',
           Ok tt)
        ∧ store_wf s'
        ∧ (∀ k', k' ≠ k → rows_at k' s' = rows_at k' (db self))
        ∧ (∀ x, last xs = Some x →
                ∃ id a d, block_record x = Some (a, d)
                          ∧ rows_at k s' = [mkRow id k (atoms_structure a) d]).
Proof.
  revert self. induction xs as [|x xs IH]; intros self Hwf Hk Hok.
  - exists (db self). by destruct self.
  - apply Forall_cons in Hok as [[[a d] Hx] Hok].
    assert (_flush_data x.1 x.2 = Ok (VAtoms a, d)) as Hdata.
    { unfold block_record in Hx.
      destruct (_flush_data x.1 x.2) as [[[] ?]|]; by simplify_eq. }
    set (s1 := store_put k (atoms_structure a) d (db self)).
    assert (flush x.1 x.2 self
            = (mkCheckpoint (checkpoint_id self) false s1, Ok tt)) as Hflush.
    { rewrite flush_eq. by erewrite flush_ok. }
    destruct (IH (mkCheckpoint (checkpoint_id self) false s1))
      as (s' & Hrun & Hwf' & Hother & Hlast); [by apply store_put_wf|done..|].
    cbn [checkpoint_id in_checkpointed_region db] in *.
    exists s'. split_and!.
    + cbn [flush_all]. unfold mbind, M_bind, bind. rewrite Hflush, Hrun.
      by destruct xs.
    + done.
    + intros k' Hne. rewrite Hother by done. by apply rows_at_put_other.
    + intros y Hy. destruct xs as [|x' xs'].
      * injection Hy as <-. exists (nextid (db self)), a, d. split; [done|].
        cbn in Hrun. injection Hrun as <-. apply rows_at_put_same.
      * by apply Hlast.
Qed.

(** X21: any number of [flush] calls in one region, each with a payload,
    leave the path as it was and, when there was at least one, the flag
    cleared; the key of the region then holds exactly one record, that of
    the last call, and the records of all other keys are as before. *)
Theorem flush_loop_keeps_last (xs : list (list value * gmap string value))
    (self : Checkpoint) (k : Z) :
  store_wf (db self) → mangled (checkpoint_id self) = Ok k →
  Forall (λ x, is_Some (block_record x)) xs →
  ∃ s', flush_all xs self
        = (mkCheckpoint (checkpoint_id self)
             (if xs is [] then in_checkpointed_region self else false) s',
           Ok tt)
        ∧ store_wf s'
        ∧ (∀ k', k' ≠ k → rows_at k' s' = rows_at k' (db self))
        ∧ (∀ x, last xs = Some x →
                ∃ id a d, block_record x = Some (a, d)
                          ∧ rows_at k s' = [mkRow id k (atoms_structure a) d]).
Proof. apply flush_all_from. Qed.

Lemma flush_loop_keeps_last_witness :
  ∃ s', flush_all [([VAtoms (mkAtoms 7 None); VInt 1], ∅);
                   ([VAtoms (mkAtoms 8 None); VInt 2], ∅);
                   ([VAtoms (mkAtoms 9 None); VInt 3], ∅)]
          (mkCheckpoint [1] true empty_store)
        = (mkCheckpoint [1] false s', Ok tt)
        ∧ ∃ id, rows_at 1 s'
                = [mkRow id 1 9 {[ value_key 1 := VInt 3;
                                   atoms_index_key := VInt 0 ]}].
Proof.
  destruct (flush_loop_keeps_last
              [([VAtoms (mkAtoms 7 None); VInt 1], ∅);
               ([VAtoms (mkAtoms 8 None); VInt 2], ∅);
               ([VAtoms (mkAtoms 9 None); VInt 3], ∅)]
              (mkCheckpoint [1] true empty_store) 1)
    as (s' & Hrun & _ & _ & Hlast).
  - exact empty_store_wf.
  - reflexivity.
  - repeat (apply Forall_cons; split; [vm_compute; by eexists|]). constructor.
  - exists s'. split; [exact Hrun|].
    destruct (Hlast _ eq_refl) as (id & a & d & Hrec & Hrows).
    exists id. vm_compute in Hrec. injection Hrec as <- <-. exact Hrows.
Defined.

(** ** The round trip of one save *)

Lemma index_True_Forall (args : list value) :
  Forall (λ v, isinstance_Atoms v = false) args →
  index_True (map isinstance_Atoms args) = None.
Proof.
  induction 1 as [|x l Hx _ IH]; [done|].
  cbn [map index_True]. by rewrite Hx, IH.
Qed.

(** What [_flush] makes of values that carry exactly one payload. *)
Lemma one_payload_flush_data (args : list value) (kwargs : gmap string value)
    (a : Atoms) :
  one_payload args kwargs a →
  no_reserved kwargs ∧ ∃ data, _flush_data args kwargs = Ok (VAtoms a, data).
Proof.
  intros [[-> (i & Hi & Hother)]|[-> Hnone]].
  - split; [split; [done|intros j; apply lookup_empty]|].
    rewrite flush_data_payload, (index_True_first args i a), Hi.
    + by eexists.
    + done.
    + intros j v Hj. apply Hother. lia.
  - split.
    + split; [by rewrite lookup_singleton_ne|].
      intros i. apply lookup_singleton_ne, not_eq_sym, value_key_ne_atoms.
    + rewrite flush_data_payload, index_True_Forall by done.
      rewrite lookup_singleton_eq. by eexists.
Qed.

(** C3, as amended: for [n >= 1] values with exactly one payload, among
    them or under the reserved name, [save] succeeds, and a [load] whose
    Enter arrives at the key that [save] wrote under returns the values in
    their order, the value alone when there is one, with the payload as the
    persisted copy carrying the calculator of the object handed to
    [load]. *)
Theorem save_load_round_trip (atoms : option Atoms)
    (self self1 reader reader' : Checkpoint) (k : Z)
    (args : list value) (kwargs : gmap string value) (a : Atoms) :
  (1 ≤ length args)%nat →
  one_payload args kwargs a →
  store_wf (db self) →
  _decrease_checkpoint_id self = (self1, Ok tt) →
  mangled (checkpoint_id self1) = Ok k →
  db reader = db (save args kwargs self).1 →
  Forall (λ c, 0 ≤ c) (checkpoint_id reader) →
  _increase_checkpoint_id reader = (reader', Ok tt) →
  mangled (checkpoint_id reader') = Ok k →
  (save args kwargs self).2 = Ok tt
  ∧ checkpoint_id (save args kwargs self).1 = checkpoint_id self1
  ∧ load atoms reader
    = (mkCheckpoint (checkpoint_id reader') false (db reader),
       Ok (pack (restored args a atoms))).
Proof.
  intros _ Hone Hwf Hdec Hk Hdb Hnn Hinc Hkey.
  destruct (one_payload_flush_data _ _ _ Hone) as [Hres [data Hdata]].
  destruct (save_then_load_at_key atoms self self1 reader reader' k args
              kwargs a data Hwf Hdec Hk Hdata Hres Hdb Hnn Hinc Hkey)
    as [Hsave Hload].
  rewrite Hsave. by split_and!.
Qed.

Lemma save_load_round_trip_witness :
  let s' := mkStore [mkRow 1 1 7 {[ value_key 0 := VInt 5;
                                    value_key 2 := VStr "x";
                                    atoms_index_key := VInt 1 ]}] 2 in
  (save [VInt 5; VAtoms (mkAtoms 7 (Some 3)); VStr "x"] ∅
     (mkCheckpoint [1] true empty_store)).2 = Ok tt
  ∧ checkpoint_id (save [VInt 5; VAtoms (mkAtoms 7 (Some 3)); VStr "x"] ∅
                     (mkCheckpoint [1] true empty_store)).1 = [1]
  ∧ load (Some (mkAtoms 0 (Some 9))) (__init__ s')
    = (mkCheckpoint [1] false s',
       Ok (VTuple [VInt 5; VAtoms (mkAtoms 7 (Some 9)); VStr "x"])).
Proof.
  intros s'.
  apply (save_load_round_trip (Some (mkAtoms 0 (Some 9)))
           (mkCheckpoint [1] true empty_store)
           (mkCheckpoint [1] false empty_store)
           (__init__ s') (mkCheckpoint [1] true s')
           1 [VInt 5; VAtoms (mkAtoms 7 (Some 3)); VStr "x"] ∅
           (mkAtoms 7 (Some 3))).
  - cbn. lia.
  - left. split; [done|]. exists 1%nat. split; [done|].
    intros [|[|[|j]]] v Hj Hv; try done; by injection Hv as <-.
  - exact empty_store_wf.
  - reflexivity.
  - reflexivity.
  - vm_compute. reflexivity.
  - repeat constructor. lia.
  - reflexivity.
  - reflexivity.
Defined.
